(** * DogHouse user-service: service authentication and field encryption

    A shallow embedding of the security core of the user service:

    - [ServiceAuthGuard] (service-auth.guard.ts): the inbound verifier,
    - [ServiceAuthClient] (service-auth.client.ts): the outbound signer,
    - [DatabaseEncryptionService] (database-encryption.service.ts): the
      AES-256-GCM field cipher.
    - [User] (user.entity.ts): the helpers that encrypt and decrypt the
      phone number of a user with that cipher.

    The TypeScript sources run on Node.js.  The platform pieces they call
    ([Buffer], [parseInt], string codecs) are written out below as executable
    functions; the two cryptographic primitives ([crypto.createHmac] and the
    AES-GCM cipher behind [crypto.createCipheriv]) are an interface with
    laws, and a checksum instance of it runs the services on concrete
    inputs. *)

From Stdlib Require Import Ascii String.
From Stdlib Require Import List ZArith Lia Bool.
From Stdlib Require Import DecimalString.
From Stdlib Require DecimalPos.
From Stdlib.Strings Require Import Byte.
Import ListNotations.

Local Open Scope Z_scope.

(** Linear arithmetic with division and remainder by constants. *)
Ltac arith := Z.div_mod_to_equations; lia.

(* ================================================================= *)
(** ** Bytes and JavaScript strings *)

(** A [Buffer] is a sequence of bytes. *)
Definition bytes := list byte.

Definition b2z (b : byte) : Z := Z.of_N (Byte.to_N b).

Definition z2b (n : Z) : byte :=
  match Byte.of_N (Z.to_N (n mod 256)) with
  | Some b => b
  | None => x00
  end.

(** A JavaScript string is a sequence of UTF-16 code units; [s.length] is
    the number of code units. *)
Definition jsstring := list Z.

(** ASCII literals of the sources. *)
Fixpoint js (s : String.string) : jsstring :=
  match s with
  | String.EmptyString => []
  | String.String a t => Z.of_N (N_of_ascii a) :: js t
  end.

Arguments js s%_string.

Definition jsstring_eqb (a b : jsstring) : bool :=
  if list_eq_dec Z.eq_dec a b then true else false.

Definition bytes_eqb (a b : bytes) : bool :=
  if list_eq_dec Byte.byte_eq_dec a b then true else false.

(** JavaScript truthiness of a string: [!s] holds for the empty string. *)
Definition truthy (s : jsstring) : bool :=
  match s with
  | [] => false
  | _ :: _ => true
  end.

(** [a || b] on strings. *)
Definition or_else (a b : jsstring) : jsstring :=
  if truthy a then a else b.

(** [String.prototype.slice(0, n)] for [0 <= n]. *)
Definition str_slice0 (s : jsstring) (n : nat) : jsstring := firstn n s.

(** [Buffer.prototype.slice(start, end)]: negative indices count from the
    end, and both are clamped to the buffer. *)
Definition slice (b : bytes) (start stop : Z) : bytes :=
  let len := Z.of_nat (length b) in
  let clamp i := if i <? 0 then Z.max (len + i) 0 else Z.min i len in
  let s := clamp start in
  let e := clamp stop in
  firstn (Z.to_nat (e - s)) (skipn (Z.to_nat s) b).

(** [buf.slice(start)]: the end defaults to the length. *)
Definition slice_from (b : bytes) (start : Z) : bytes :=
  slice b start (Z.of_nat (length b)).

(* ----------------------------------------------------------------- *)
(** *** Hex codec ([Buffer.from(s, 'hex')], [buf.toString('hex')]) *)

Definition hex_digit (n : Z) : Z :=
  if n <? 10 then 48 + n else 87 + n.

Definition hex_encode (b : bytes) : jsstring :=
  flat_map (fun x => [hex_digit (b2z x / 16); hex_digit (b2z x mod 16)]) b.

Definition hex_val (c : Z) : option Z :=
  if (48 <=? c) && (c <=? 57) then Some (c - 48)
  else if (97 <=? c) && (c <=? 102) then Some (c - 87)
  else if (65 <=? c) && (c <=? 70) then Some (c - 55)
  else None.

(** Decoding reads pairs of hex digits and stops at the first pair that is
    not one (or at a dangling last digit). *)
Fixpoint hex_decode (s : jsstring) : bytes :=
  match s with
  | h :: l :: rest =>
      match hex_val h, hex_val l with
      | Some a, Some b => z2b (a * 16 + b) :: hex_decode rest
      | _, _ => []
      end
  | _ => []
  end.

(* ----------------------------------------------------------------- *)
(** *** Base64 codec ([Buffer.from(s, 'base64')], [buf.toString('base64')]) *)

Definition b64_char (n : Z) : Z :=
  if n <? 26 then 65 + n
  else if n <? 52 then 71 + n
  else if n <? 62 then n - 4
  else if n =? 62 then 43
  else 47.

Fixpoint base64_encode (b : bytes) : jsstring :=
  match b with
  | [] => []
  | [x] =>
      let n := b2z x in
      [b64_char (n / 4); b64_char ((n mod 4) * 16); 61; 61]
  | [x; y] =>
      let n := b2z x * 256 + b2z y in
      [b64_char (n / 1024); b64_char ((n / 16) mod 64);
       b64_char ((n mod 16) * 4); 61]
  | x :: y :: z :: rest =>
      let n := b2z x * 65536 + b2z y * 256 + b2z z in
      b64_char (n / 262144) :: b64_char ((n / 4096) mod 64)
        :: b64_char ((n / 64) mod 64) :: b64_char (n mod 64)
        :: base64_encode rest
  end.

(** The decoder accepts the standard and the URL-safe alphabet. *)
Definition b64_val (c : Z) : option Z :=
  if (65 <=? c) && (c <=? 90) then Some (c - 65)
  else if (97 <=? c) && (c <=? 122) then Some (c - 71)
  else if (48 <=? c) && (c <=? 57) then Some (c + 4)
  else if (c =? 43) || (c =? 45) then Some 62
  else if (c =? 47) || (c =? 95) then Some 63
  else None.

(** Characters outside the alphabet are skipped; [=] ends the input. *)
Fixpoint b64_sextets (s : jsstring) : list Z :=
  match s with
  | [] => []
  | c :: t =>
      if c =? 61 then []
      else match b64_val c with
           | Some v => v :: b64_sextets t
           | None => b64_sextets t
           end
  end.

Fixpoint b64_bytes (l : list Z) : bytes :=
  match l with
  | a :: b :: c :: d :: rest =>
      let n := a * 262144 + b * 4096 + c * 64 + d in
      z2b (n / 65536) :: z2b ((n / 256) mod 256) :: z2b (n mod 256)
        :: b64_bytes rest
  | [a; b; c] =>
      let n := a * 4096 + b * 64 + c in
      [z2b (n / 1024); z2b ((n / 4) mod 256)]
  | [a; b] => [z2b ((a * 64 + b) / 16)]
  | _ => []
  end.

Definition base64_decode (s : jsstring) : bytes :=
  b64_bytes (b64_sextets s).

(* ----------------------------------------------------------------- *)
(** *** UTF-8 codec ([Buffer.from(s, 'utf8')], [buf.toString('utf8')]) *)

Definition is_high_surrogate (c : Z) : bool := (55296 <=? c) && (c <=? 56319).
Definition is_low_surrogate (c : Z) : bool := (56320 <=? c) && (c <=? 57343).

(** U+FFFD REPLACEMENT CHARACTER and its encoding EF BF BD. *)
Definition replacement_char : Z := 65533.
Definition replacement_bytes : bytes := [xef; xbf; xbd].

Definition utf8_2 (c : Z) : bytes :=
  [z2b (192 + c / 64); z2b (128 + c mod 64)].

Definition utf8_3 (c : Z) : bytes :=
  [z2b (224 + c / 4096); z2b (128 + (c / 64) mod 64); z2b (128 + c mod 64)].

Definition utf8_4 (c : Z) : bytes :=
  [z2b (240 + c / 262144); z2b (128 + (c / 4096) mod 64);
   z2b (128 + (c / 64) mod 64); z2b (128 + c mod 64)].

(** The code point of a surrogate pair. *)
Definition pair_code_point (hi lo : Z) : Z :=
  65536 + (hi - 55296) * 1024 + (lo - 56320).

(** Encoding a string: a surrogate pair becomes one four-byte sequence, a
    lone surrogate becomes U+FFFD. *)
Fixpoint utf8_encode (s : jsstring) : bytes :=
  match s with
  | [] => []
  | c :: t =>
      if c <? 128 then z2b c :: utf8_encode t
      else if c <? 2048 then utf8_2 c ++ utf8_encode t
      else if is_high_surrogate c then
        match t with
        | d :: t' =>
            if is_low_surrogate d
            then utf8_4 (pair_code_point c d) ++ utf8_encode t'
            else replacement_bytes ++ utf8_encode t
        | [] => replacement_bytes
        end
      else if is_low_surrogate c then replacement_bytes ++ utf8_encode t
      else utf8_3 c ++ utf8_encode t
  end.

Definition is_continuation (b : byte) : bool :=
  (128 <=? b2z b) && (b2z b <? 192).

(** The code units of a code point. *)
Definition code_units_of (cp : Z) : jsstring :=
  if cp <? 65536 then [cp]
  else [55296 + (cp - 65536) / 1024; 56320 + (cp - 65536) mod 1024].

(** Decoding one sequence: a byte that does not start a well-formed,
    shortest-form sequence of a scalar value decodes to U+FFFD.  [rest]
    decodes what follows the bytes consumed. *)
Definition utf8_decode_sequence (rest : bytes -> jsstring) (b0 : byte) (t : bytes)
    : jsstring :=
  let n0 := b2z b0 in
  let bad := replacement_char :: rest t in
  if n0 <? 128 then n0 :: rest t
  else if (194 <=? n0) && (n0 <? 224) then
    match t with
    | b1 :: t1 =>
        if is_continuation b1
        then ((n0 - 192) * 64 + (b2z b1 - 128)) :: rest t1
        else bad
    | _ => bad
    end
  else if (224 <=? n0) && (n0 <? 240) then
    match t with
    | b1 :: b2 :: t2 =>
        let cp := (n0 - 224) * 4096 + (b2z b1 - 128) * 64 + (b2z b2 - 128) in
        if is_continuation b1 && is_continuation b2
           && (2048 <=? cp) && negb ((55296 <=? cp) && (cp <=? 57343))
        then cp :: rest t2
        else bad
    | _ => bad
    end
  else if (240 <=? n0) && (n0 <? 245) then
    match t with
    | b1 :: b2 :: b3 :: t3 =>
        let cp := (n0 - 240) * 262144 + (b2z b1 - 128) * 4096
                  + (b2z b2 - 128) * 64 + (b2z b3 - 128) in
        if is_continuation b1 && is_continuation b2 && is_continuation b3
           && (65536 <=? cp) && (cp <=? 1114111)
        then code_units_of cp ++ rest t3
        else bad
    | _ => bad
    end
  else bad.

Fixpoint utf8_decode (b : bytes) : jsstring :=
  match b with
  | [] => []
  | b0 :: t => utf8_decode_sequence utf8_decode b0 t
  end.

(** A well-formed UTF-16 string: code units in range, surrogates paired. *)
Fixpoint well_formed (s : jsstring) : bool :=
  match s with
  | [] => true
  | c :: t =>
      (0 <=? c) && (c <? 65536) &&
      if is_high_surrogate c then
        match t with
        | d :: t' => is_low_surrogate d && well_formed t'
        | [] => false
        end
      else negb (is_low_surrogate c) && well_formed t
  end.

(* ----------------------------------------------------------------- *)
(** *** Numbers and strings *)

(** [parseInt(s, 10)]: leading white space is skipped, one sign is read,
    then the longest run of decimal digits; [None] is [NaN], returned when
    there is no digit.  The value is the integer the digits denote (a
    JavaScript number represents it exactly up to 2^53). *)
Definition is_white_space (c : Z) : bool :=
  existsb (Z.eqb c) [9; 10; 11; 12; 13; 32; 160; 5760; 8232; 8233; 8239; 8287; 12288; 65279]
  || ((8192 <=? c) && (c <=? 8202)).

Fixpoint skip_white_space (s : jsstring) : jsstring :=
  match s with
  | c :: t => if is_white_space c then skip_white_space t else s
  | [] => []
  end.

Definition is_digit (c : Z) : bool := (48 <=? c) && (c <=? 57).

Fixpoint parse_digits (acc : Z) (s : jsstring) : Z :=
  match s with
  | c :: t => if is_digit c then parse_digits (acc * 10 + (c - 48)) t else acc
  | [] => acc
  end.

Definition parseInt (s : jsstring) : option Z :=
  let s := skip_white_space s in
  let '(sign, s) :=
    match s with
    | 45 :: t => (-1, t)
    | 43 :: t => (1, t)
    | _ => (1, s)
    end in
  match s with
  | c :: _ => if is_digit c then Some (sign * parse_digits 0 s) else None
  | [] => None
  end.

(** [n.toString()] for an integer [n]. *)
Definition Z_toString (n : Z) : jsstring :=
  js (NilZero.string_of_int (Z.to_int n)).

(** [s.toUpperCase()], for the letters of the ASCII range. *)
Definition toUpperCase (s : jsstring) : jsstring :=
  map (fun c => if (97 <=? c) && (c <=? 122) then c - 32 else c) s.

(** [s.substring(0, n)]. *)
Definition substring0 (s : jsstring) (n : nat) : jsstring := firstn n s.

(** Joining template-literal parts with [:]. *)
Definition colon : jsstring := [58].

(** A JavaScript value as far as the services look at it: its truthiness
    and what [JSON.stringify] makes of it ([None] is [undefined]). *)
Record JsValue := {
  js_truthy : bool;
  js_json : option jsstring
}.

Definition js_undefined : JsValue := {| js_truthy := false; js_json := None |}.

(** A string interpolated in a template literal. *)
Definition interpolate (o : option jsstring) : jsstring :=
  match o with
  | Some s => s
  | None => js "undefined"
  end.

(** String-keyed tables: [ConfigService], header objects and [Map]s built
    from distinct keys.  The first binding of a key is the one found. *)
Definition table := list (jsstring * jsstring).

Fixpoint lookup (k : jsstring) (t : table) : option jsstring :=
  match t with
  | [] => None
  | (k', v) :: rest => if jsstring_eqb k k' then Some v else lookup k rest
  end.

Fixpoint assign (k v : jsstring) (t : table) : table :=
  match t with
  | [] => [(k, v)]
  | (k', v') :: rest =>
      if jsstring_eqb k k' then (k, v) :: rest else (k', v') :: assign k v rest
  end.

(** [!x], for an [x] that is a string or [undefined]. *)
Definition falsy (o : option jsstring) : bool :=
  match o with
  | Some s => negb (truthy s)
  | None => true
  end.

(** The cast [x as string] of a value known to be a string. *)
Definition as_string (o : option jsstring) : jsstring :=
  match o with
  | Some s => s
  | None => []
  end.

Definition ConfigService := table.

(** [configService.get(name, defaultValue)]. *)
Definition config_get (cfg : ConfigService) (name default : jsstring) : jsstring :=
  match lookup name cfg with
  | Some v => v
  | None => default
  end.

(* ================================================================= *)
(** ** Effects: exceptions, console, clock and random bytes *)

Inductive exn :=
| JsError (message : jsstring)
| UnauthorizedException (message : jsstring).

Definition message (e : exn) : jsstring :=
  match e with
  | JsError m => m
  | UnauthorizedException m => m
  end.

Inductive result (A : Type) :=
| Ok (a : A)
| Throw (e : exn).

Arguments Ok {A} a.
Arguments Throw {A} e.

Inductive LogLine :=
| ConsoleWarn (args : list jsstring)
| ConsoleError (args : list jsstring)
| LoggerDebug (args : list jsstring)
| LoggerError (args : list jsstring).

(** What a call can observe and change outside its arguments: the lines
    written so far, the clock read by [Date.now()] (milliseconds) and the
    source of [crypto.randomBytes]. *)
Record World := {
  console : list LogLine;
  clock : Z;
  entropy : nat -> byte;
  drawn : nat
}.

Definition Eff (A : Type) : Type := World -> World * result A.

Definition ret {A} (a : A) : Eff A := fun w => (w, Ok a).

Definition throw {A} (e : exn) : Eff A := fun w => (w, Throw e).

Definition bind {A B} (m : Eff A) (k : A -> Eff B) : Eff B :=
  fun w =>
    match m w with
    | (w', Ok a) => k a w'
    | (w', Throw e) => (w', Throw e)
    end.

(** [try { m } catch (error) { handler }]. *)
Definition try_catch {A} (m : Eff A) (handler : exn -> Eff A) : Eff A :=
  fun w =>
    match m w with
    | (w', Ok a) => (w', Ok a)
    | (w', Throw e) => handler e w'
    end.

Definition lift {A} (r : result A) : Eff A := fun w => (w, r).

Definition log (l : LogLine) : Eff unit :=
  fun w =>
    ({| console := console w ++ [l]; clock := clock w;
        entropy := entropy w; drawn := drawn w |}, Ok tt).

Definition Date_now : Eff Z := fun w => (w, Ok (clock w)).

(** [crypto.randomBytes(n)]. *)
Definition randomBytes (n : nat) : Eff bytes :=
  fun w =>
    ({| console := console w; clock := clock w;
        entropy := entropy w; drawn := drawn w + n |},
     Ok (map (entropy w) (seq (drawn w) n))).

Declare Scope eff_scope.
Delimit Scope eff_scope with eff.
Notation "x <- m ;; k" := (bind m (fun x => k))
  (at level 61, m at next level, right associativity) : eff_scope.
Notation "m ;; k" := (bind m (fun _ => k))
  (at level 61, right associativity) : eff_scope.
Local Open Scope eff_scope.

Definition outcome {A} (m : Eff A) (w : World) : result A := snd (m w).
Definition written {A} (m : Eff A) (w : World) : list LogLine :=
  skipn (length (console w)) (console (fst (m w))).

(* ================================================================= *)
(** ** The [crypto] module *)

(** The primitives behind [createHmac('sha256', _)] and the [aes-256-gcm]
    cipher.  [gcm_crypt key iv] is the counter-mode transformation, the same
    in both directions; [gcm_tag key iv c] is the 16-byte authentication
    tag of the ciphertext [c] under [key] and [iv]. *)
Class Crypto := {
  hmac_sha256 : bytes -> bytes -> bytes;
  gcm_crypt : bytes -> bytes -> bytes -> bytes;
  gcm_tag : bytes -> bytes -> bytes -> bytes
}.

(** Flipping bit [i] of a buffer (bit [i mod 8] of byte [i / 8]). *)
Definition flip_byte (i : nat) (b : byte) : byte :=
  z2b (Z.lxor (b2z b) (2 ^ Z.of_nat i)).

Fixpoint flip_bit (i : nat) (l : bytes) : bytes :=
  match l with
  | [] => []
  | b :: t =>
      if (i <? 8)%nat then flip_byte i b :: t else b :: flip_bit (i - 8) t
  end.

(** What the services rely on: decryption inverts encryption, tags have 16
    bytes, and under a 256-bit key the tag changes whenever one bit of the
    IV or of the ciphertext does.  The last law is the idealisation of an
    authenticated cipher: for GCM a change of one bit of the IV or of the
    ciphertext moves the tag as soon as the hash subkey of the key is not
    zero. *)
Class CryptoLaws (C : Crypto) : Prop := {
  gcm_crypt_involutive :
    forall key iv data, gcm_crypt key iv (gcm_crypt key iv data) = data;
  gcm_tag_length :
    forall key iv c, length (gcm_tag key iv c) = 16%nat;
  gcm_tag_bit_sensitive :
    forall key iv c i,
      length key = 32%nat ->
      (i < 8 * length (iv ++ c))%nat ->
      let d := flip_bit i (iv ++ c) in
      gcm_tag key (firstn (length iv) d) (skipn (length iv) d) <> gcm_tag key iv c
}.

(** An instance made of byte checksums.  It protects nothing; it serves to
    run the services on concrete inputs and to show the laws consistent. *)
Definition checksum (l : bytes) : Z := fold_right (fun b acc => b2z b + acc) 0 l.

Definition complement (b : byte) : byte := z2b (255 - b2z b).

Definition ChecksumCrypto : Crypto := {|
  hmac_sha256 := fun key msg =>
    map (fun i => z2b (checksum (key ++ msg) + 41 * Z.of_nat i)) (seq 0 32);
  gcm_crypt := fun _ _ data => map complement data;
  gcm_tag := fun key iv c => z2b (checksum (key ++ iv ++ c)) :: repeat x00 15
|}.

Section CryptoModule.

Context {C : Crypto}.

Definition aes_256_gcm : jsstring := js "aes-256-gcm".

(** The state of a [Cipher]: key, IV and the ciphertext produced. *)
Record Cipher := {
  cipher_key : bytes;
  cipher_iv : bytes;
  cipher_text : bytes
}.

(** [crypto.createCipheriv(algorithm, key, iv)] throws for a key that does
    not have the 32 bytes of AES-256 and for an empty IV. *)
Definition createCipheriv (algorithm : jsstring) (key iv : bytes) : result Cipher :=
  if negb (jsstring_eqb algorithm aes_256_gcm) then
    Throw (JsError (js "Unknown cipher"))
  else if negb (length key =? 32)%nat then
    Throw (JsError (js "Invalid key length"))
  else if (length iv =? 0)%nat then
    Throw (JsError (js "Invalid initialization vector"))
  else Ok {| cipher_key := key; cipher_iv := iv; cipher_text := [] |}.

(** [cipher.update(data)], for the one call a cipher receives here. *)
Definition cipher_update (c : Cipher) (data : bytes) : Cipher * bytes :=
  let out := gcm_crypt (cipher_key c) (cipher_iv c) data in
  ({| cipher_key := cipher_key c; cipher_iv := cipher_iv c;
      cipher_text := cipher_text c ++ out |}, out).

(** [cipher.final()]: a counter mode holds nothing back. *)
Definition cipher_final (c : Cipher) : bytes := [].

Definition cipher_getAuthTag (c : Cipher) : bytes :=
  gcm_tag (cipher_key c) (cipher_iv c) (cipher_text c).

(** The state of a [Decipher]: key, IV, the tag to check and the
    ciphertext consumed. *)
Record Decipher := {
  decipher_key : bytes;
  decipher_iv : bytes;
  decipher_tag : option bytes;
  decipher_text : bytes
}.

Definition createDecipheriv (algorithm : jsstring) (key iv : bytes) : result Decipher :=
  if negb (jsstring_eqb algorithm aes_256_gcm) then
    Throw (JsError (js "Unknown cipher"))
  else if negb (length key =? 32)%nat then
    Throw (JsError (js "Invalid key length"))
  else if (length iv =? 0)%nat then
    Throw (JsError (js "Invalid initialization vector"))
  else Ok {| decipher_key := key; decipher_iv := iv;
             decipher_tag := None; decipher_text := [] |}.

(** [decipher.setAuthTag(tag)] accepts the GCM tag lengths only. *)
Definition decipher_setAuthTag (d : Decipher) (tag : bytes) : result Decipher :=
  if existsb (Nat.eqb (length tag)) [4; 8; 12; 13; 14; 15; 16]%nat then
    Ok {| decipher_key := decipher_key d; decipher_iv := decipher_iv d;
          decipher_tag := Some tag; decipher_text := decipher_text d |}
  else Throw (JsError (js "Invalid authentication tag length")).

Definition decipher_update (d : Decipher) (data : bytes) : Decipher * bytes :=
  ({| decipher_key := decipher_key d; decipher_iv := decipher_iv d;
      decipher_tag := decipher_tag d; decipher_text := decipher_text d ++ data |},
   gcm_crypt (decipher_key d) (decipher_iv d) data).

(** [decipher.final()] throws unless the tag set is the tag of what was
    consumed (a shorter tag is compared with a prefix). *)
Definition decipher_final (d : Decipher) : result bytes :=
  let expected := gcm_tag (decipher_key d) (decipher_iv d) (decipher_text d) in
  match decipher_tag d with
  | Some tag =>
      if bytes_eqb tag (firstn (length tag) expected) then Ok []
      else Throw (JsError (js "Unsupported state or unable to authenticate data"))
  | None =>
      Throw (JsError (js "Unsupported state or unable to authenticate data"))
  end.

(** [crypto.timingSafeEqual(a, b)] throws for buffers of different
    lengths. *)
Definition timingSafeEqual (a b : bytes) : result bool :=
  if (length a =? length b)%nat then Ok (bytes_eqb a b)
  else Throw (JsError (js "Input buffers must have the same byte length")).

End CryptoModule.

(* ================================================================= *)
(** ** DatabaseEncryptionService (database-encryption.service.ts) *)

Module DatabaseEncryptionService.
Section Service.

Context {C : Crypto}.

Record t := { encryptionKey : bytes }.

Definition algorithm : jsstring := aes_256_gcm.
Definition ivLength : nat := 16.
Definition authTagLength : nat := 16.

Definition fallback_key : jsstring := js "dbencryptionsecretkeyfordevelopment".

Definition key_missing_or_short (keyString : jsstring) : bool :=
  negb (truthy keyString) || (length keyString <? 32)%nat.

Definition constructor (configService : ConfigService) : Eff t :=
  let keyString := config_get configService (js "DB_ENCRYPTION_KEY") [] in
  if key_missing_or_short keyString then
    log (ConsoleWarn [js "Warning: DB_ENCRYPTION_KEY is missing or too short. Defaulting to a development key."]) ;;
    ret {| encryptionKey := utf8_encode fallback_key |}
  else
    ret {| encryptionKey := utf8_encode (str_slice0 keyString 32) |}.

Definition encrypt (this : t) (text : jsstring) : Eff jsstring :=
  if negb (truthy text) then ret text
  else
    try_catch
      (iv <- randomBytes ivLength ;;
       cipher <- lift (createCipheriv algorithm (encryptionKey this) iv) ;;
       let '(cipher, out) := cipher_update cipher (utf8_encode text) in
       let encrypted := hex_encode out in
       let encrypted := encrypted ++ hex_encode (cipher_final cipher) in
       let authTag := cipher_getAuthTag cipher in
       ret (base64_encode (iv ++ hex_decode encrypted ++ authTag)))
      (fun error =>
         log (ConsoleError [js "Encryption error:"; message error]) ;;
         throw (JsError (js "Failed to encrypt data"))).

Definition decryption_failed : jsstring := js "[Decryption failed]".

Definition decrypt (this : t) (encryptedText : jsstring) : Eff jsstring :=
  if negb (truthy encryptedText) then ret encryptedText
  else
    try_catch
      (let buffer := base64_decode encryptedText in
       let iv := slice buffer 0 (Z.of_nat ivLength) in
       let authTag :=
         slice_from buffer (Z.of_nat (length buffer) - Z.of_nat authTagLength) in
       let encrypted :=
         slice buffer (Z.of_nat ivLength)
           (Z.of_nat (length buffer) - Z.of_nat authTagLength) in
       decipher <- lift (createDecipheriv algorithm (encryptionKey this) iv) ;;
       decipher <- lift (decipher_setAuthTag decipher authTag) ;;
       let '(decipher, out) :=
         decipher_update decipher (hex_decode (hex_encode encrypted)) in
       let decrypted := utf8_decode out in
       rest <- lift (decipher_final decipher) ;;
       ret (decrypted ++ utf8_decode rest))
      (fun error =>
         log (ConsoleError [js "Decryption error:"; message error]) ;;
         ret decryption_failed).

End Service.
End DatabaseEncryptionService.

(* ================================================================= *)
(** ** ServiceAuthGuard (service-auth.guard.ts) *)

(** The part of an Express request the guard reads. *)
Record Request := {
  headers : list (jsstring * jsstring);
  method : jsstring;
  path : jsstring;
  body : JsValue
}.

Module ServiceAuthGuard.
Section Guard.

Context {C : Crypto}.

Record t := {
  configService : ConfigService;
  apiKeys : table;
  allowedServices : list jsstring
}.

(** [array.includes(x)]. *)
Definition includes (l : list jsstring) (x : jsstring) : bool :=
  existsb (jsstring_eqb x) l.

(** [Array.from(map.keys())]. *)
Definition keys (m : table) : list jsstring := map fst m.

Definition yes_no (key : jsstring) : jsstring :=
  if truthy key then js "YES" else js "NO".

(** [array.join(separator)]. *)
Fixpoint join (separator : jsstring) (l : list jsstring) : jsstring :=
  match l with
  | [] => []
  | [x] => x
  | x :: rest => x ++ separator ++ join separator rest
  end.

(** [allowedServices.forEach(service => logger.debug(...))]. *)
Fixpoint log_each_key (apiKeys : table) (services : list jsstring) : Eff unit :=
  match services with
  | [] => ret tt
  | service :: rest =>
      let key := or_else (as_string (lookup service apiKeys)) [] in
      log (LoggerDebug [js "Service " ++ service ++ js " has key: " ++ yes_no key]) ;;
      log_each_key apiKeys rest
  end.

Definition constructor (configService : ConfigService) : Eff t :=
  let apiKeys : table :=
    [ (js "user-service", config_get configService (js "USER_SERVICE_KEY") []);
      (js "api-gateway", config_get configService (js "API_GATEWAY_KEY") []);
      (js "pet-service", config_get configService (js "PET_SERVICE_KEY") []);
      (js "auth-service", config_get configService (js "AUTH_SERVICE_KEY") []) ] in
  let allowedServices := keys apiKeys in
  (if match lookup (js "NODE_ENV") configService with
      | Some env => jsstring_eqb env (js "development")
      | None => false
      end
   then
     log (LoggerDebug [js "Allowed services: " ++ join (js ", ") allowedServices]) ;;
     log_each_key apiKeys allowedServices
   else ret tt) ;;
  ret {| configService := configService; apiKeys := apiKeys;
         allowedServices := allowedServices |}.

(** [crypto.createHmac('sha256', key).update(content).digest('hex')]. *)
Definition createSignature (content key : jsstring) : jsstring :=
  hex_encode (hmac_sha256 (utf8_encode key) (utf8_encode content)).

Definition safeCompare (a b : jsstring) : Eff bool :=
  if negb (length a =? length b)%nat then ret false
  else
    try_catch
      (lift (timingSafeEqual (hex_decode a) (hex_decode b)))
      (fun error =>
         log (LoggerError [js "Error in safeCompare: "; message error]) ;;
         ret false).

(** The string the signature is computed over. *)
Definition signatureContent (method path timestamp bodyContent : jsstring) : jsstring :=
  method ++ colon ++ path ++ colon ++ timestamp ++ colon ++ bodyContent.

Definition in_production (configService : ConfigService) : bool :=
  match lookup (js "NODE_ENV") configService with
  | Some env => jsstring_eqb env (js "production")
  | None => false
  end.

(** The times are integers here.  [Date.now()] is an integer far below
    2^53, and for integers the comparison [currentTime - requestTime > 300]
    has the same truth value in double precision as in exact arithmetic:
    rounding is monotone and keeps every integer up to 2^53. *)
Definition canActivate (this : t) (request : Request) : Eff bool :=
  let serviceId := lookup (js "x-service-id") (headers request) in
  let timestamp := lookup (js "x-request-timestamp") (headers request) in
  let signature := lookup (js "x-request-signature") (headers request) in
  if falsy serviceId || falsy timestamp || falsy signature then
    throw (UnauthorizedException (js "Missing required authentication headers"))
  else
  let serviceId := as_string serviceId in
  let timestamp := as_string timestamp in
  let signature := as_string signature in
  if negb (includes (allowedServices this) serviceId) then
    throw (UnauthorizedException (js "Unknown service: " ++ serviceId))
  else
  let requestTime := parseInt timestamp in
  now <- Date_now ;;
  let currentTime := now / 1000 in
  if match requestTime with
     | None => true
     | Some requestTime => currentTime - requestTime >? 300
     end
  then throw (UnauthorizedException (js "Request expired or invalid timestamp"))
  else
  let apiKey := lookup serviceId (apiKeys this) in
  if falsy apiKey then
    throw (UnauthorizedException (js "Invalid service credentials"))
  else
  let apiKey := as_string apiKey in
  let method := method request in
  let path := path request in
  let bodyContent := or_else (as_string (js_json (body request))) [] in
  let content := signatureContent method path timestamp bodyContent in
  let expectedSignature := createSignature content apiKey in
  (* the debug line carries the values interpolated in its message *)
  (if negb (in_production (configService this)) then
     log (LoggerDebug [js "Signature verification:"; serviceId; method; path;
                       timestamp; bodyContent; content; signature;
                       expectedSignature; substring0 apiKey 4])
   else ret tt) ;;
  equal <- safeCompare signature expectedSignature ;;
  if negb equal then throw (UnauthorizedException (js "Invalid signature"))
  else ret true.

End Guard.
End ServiceAuthGuard.

(* ================================================================= *)
(** ** ServiceAuthClient (service-auth.client.ts) *)

(** The part of an Axios request configuration the signer reads and
    writes. *)
Record RequestConfig := {
  config_method : option jsstring;
  config_url : option jsstring;
  config_data : JsValue;
  config_headers : option table
}.

Module ServiceAuthClient.
Section Client.

Context {C : Crypto}.

Record t := { serviceKey : jsstring }.

Definition serviceId : jsstring := js "user-service".

Definition constructor (configService : ConfigService) : Eff t :=
  let serviceKey := config_get configService (js "USER_SERVICE_KEY") [] in
  (if negb (truthy serviceKey) then
     log (ConsoleWarn [js "Warning: USER_SERVICE_KEY is not set. Service authentication will fail."])
   else ret tt) ;;
  ret {| serviceKey := serviceKey |}.

(** [crypto.createHmac('sha256', key).update(content).digest('hex')]. *)
Definition createSignature (content key : jsstring) : jsstring :=
  hex_encode (hmac_sha256 (utf8_encode key) (utf8_encode content)).

(** The constructor also creates the Axios instance and installs
    [signRequest] as its request interceptor; that wiring is not part of
    this model. *)
Definition signRequest (this : t) (config : RequestConfig) : Eff RequestConfig :=
  now <- Date_now ;;
  let timestamp := Z_toString (now / 1000) in
  let method :=
    or_else (match config_method config with
             | Some m => toUpperCase m
             | None => []
             end) (js "GET") in
  let path := or_else (as_string (config_url config)) [] in
  let bodyContent :=
    if js_truthy (config_data config)
    then interpolate (js_json (config_data config))
    else [] in
  let content := method ++ colon ++ path ++ colon ++ timestamp ++ colon ++ bodyContent in
  let signature := createSignature content (serviceKey this) in
  let headers :=
    match config_headers config with
    | Some h => h
    | None => []
    end in
  let headers := assign (js "x-service-id") serviceId headers in
  let headers := assign (js "x-request-timestamp") timestamp headers in
  let headers := assign (js "x-request-signature") signature headers in
  ret {| config_method := config_method config; config_url := config_url config;
         config_data := config_data config; config_headers := Some headers |}.

End Client.
End ServiceAuthClient.

(* ================================================================= *)
(** ** The verifier as the specification describes it

    Five checks in a fixed order; the first one that fails gives the
    reason of the rejection.  This is the description the guard is compared
    with. *)

Module Verifier.
Section Verifier.

Context {C : Crypto}.

Inductive Check :=
| HeaderPresence
| KnownService
| FreshTimestamp
| KeyPresent
| SignatureMatch.

Inductive Rejection :=
| MissingHeaders
| UnknownService
| InvalidOrExpiredTimestamp
| InvalidServiceCredentials
| InvalidSignature.

Inductive Verdict :=
| Accepted
| Rejected (reason : Rejection).

Definition check_order : list Check :=
  [HeaderPresence; KnownService; FreshTimestamp; KeyPresent; SignatureMatch].

Definition rank (c : Check) : nat :=
  match c with
  | HeaderPresence => 0
  | KnownService => 1
  | FreshTimestamp => 2
  | KeyPresent => 3
  | SignatureMatch => 4
  end.

Definition rejection_of (c : Check) : Rejection :=
  match c with
  | HeaderPresence => MissingHeaders
  | KnownService => UnknownService
  | FreshTimestamp => InvalidOrExpiredTimestamp
  | KeyPresent => InvalidServiceCredentials
  | SignatureMatch => InvalidSignature
  end.

Definition header (name : jsstring) (request : Request) : jsstring :=
  as_string (lookup name (headers request)).

Definition serviceId_of := header (js "x-service-id").
Definition timestamp_of := header (js "x-request-timestamp").
Definition signature_of := header (js "x-request-signature").

(** The comparison of two hex signatures: equal lengths, then equal
    bytes. *)
Definition signatures_equal (a b : jsstring) : bool :=
  (length a =? length b)%nat
  && (length (hex_decode a) =? length (hex_decode b))%nat
  && bytes_eqb (hex_decode a) (hex_decode b).

(** The signature the verifier computes for a request. *)
Definition expected_signature (g : ServiceAuthGuard.t) (request : Request) : jsstring :=
  ServiceAuthGuard.createSignature
    (ServiceAuthGuard.signatureContent (method request) (path request)
       (timestamp_of request)
       (or_else (as_string (js_json (body request))) []))
    (as_string (lookup (serviceId_of request) (ServiceAuthGuard.apiKeys g))).

Definition passes (g : ServiceAuthGuard.t) (currentTime : Z) (request : Request)
    (c : Check) : bool :=
  match c with
  | HeaderPresence =>
      truthy (serviceId_of request) && truthy (timestamp_of request)
      && truthy (signature_of request)
  | KnownService =>
      ServiceAuthGuard.includes (ServiceAuthGuard.allowedServices g)
        (serviceId_of request)
  | FreshTimestamp =>
      match parseInt (timestamp_of request) with
      | Some requestTime => currentTime - requestTime <=? 300
      | None => false
      end
  | KeyPresent =>
      truthy (as_string (lookup (serviceId_of request) (ServiceAuthGuard.apiKeys g)))
  | SignatureMatch =>
      signatures_equal (signature_of request) (expected_signature g request)
  end.

Fixpoint first_failure (p : Check -> bool) (l : list Check) : option Check :=
  match l with
  | [] => None
  | c :: rest => if p c then first_failure p rest else Some c
  end.

Definition verify (g : ServiceAuthGuard.t) (currentTime : Z) (request : Request) : Verdict :=
  match first_failure (passes g currentTime request) check_order with
  | None => Accepted
  | Some c => Rejected (rejection_of c)
  end.

(** The exception message each rejection is raised with. *)
Definition rejection_message (r : Rejection) (request : Request) : jsstring :=
  match r with
  | MissingHeaders => js "Missing required authentication headers"
  | UnknownService => js "Unknown service: " ++ serviceId_of request
  | InvalidOrExpiredTimestamp => js "Request expired or invalid timestamp"
  | InvalidServiceCredentials => js "Invalid service credentials"
  | InvalidSignature => js "Invalid signature"
  end.

(** A verdict as the guard delivers it: [true], or an
    [UnauthorizedException]. *)
Definition delivered (v : Verdict) (request : Request) : result bool :=
  match v with
  | Accepted => Ok true
  | Rejected r => Throw (UnauthorizedException (rejection_message r request))
  end.

(** The request with another signature header. *)
Definition with_signature (request : Request) (signature : jsstring) : Request :=
  {| headers := assign (js "x-request-signature") signature (headers request);
     method := method request;
     path := path request;
     body := body request |}.

End Verifier.
End Verifier.

(* ================================================================= *)
(** ** Concrete inputs *)

Module Sample.

Definition world : World :=
  {| console := []; clock := 1700000100250;
     entropy := fun _ => x2a; drawn := 0 |}.

Definition service_keys : ConfigService :=
  [ (js "USER_SERVICE_KEY", js "test_user_service_key");
    (js "API_GATEWAY_KEY", js "test_api_gateway_key");
    (js "NODE_ENV", js "production") ].

Definition guard : ServiceAuthGuard.t :=
  {| ServiceAuthGuard.configService := service_keys;
     ServiceAuthGuard.apiKeys :=
       [ (js "user-service", js "test_user_service_key");
         (js "api-gateway", js "test_api_gateway_key");
         (js "pet-service", []);
         (js "auth-service", []) ];
     ServiceAuthGuard.allowedServices :=
       [js "user-service"; js "api-gateway"; js "pet-service"; js "auth-service"] |}.

Definition no_body : JsValue := js_undefined.

Definition request (serviceId timestamp signature : jsstring) : Request :=
  {| headers := [ (js "x-service-id", serviceId);
                  (js "x-request-timestamp", timestamp);
                  (js "x-request-signature", signature) ];
     method := js "GET";
     path := js "/users/1";
     body := no_body |}.

(** A request signed for the fields it carries. *)
Definition signed_request {C : Crypto} (serviceId timestamp : jsstring) : Request :=
  let unsigned := request serviceId timestamp [] in
  request serviceId timestamp (Verifier.expected_signature guard unsigned).

Definition unsigned_config : RequestConfig :=
  {| config_method := Some (js "get");
     config_url := Some (js "/users/1");
     config_data := js_undefined;
     config_headers := None |}.

Definition cipher : DatabaseEncryptionService.t :=
  {| DatabaseEncryptionService.encryptionKey :=
       utf8_encode (js "db_encryption_key_32chars_change") |}.

Definition encryption_config : ConfigService :=
  [ (js "DB_ENCRYPTION_KEY", js "db_encryption_key_32chars_change") ].

(** Thirty-two times U+00E9. *)
Definition accented_key : jsstring := repeat 233 32.

Definition accented_config : ConfigService :=
  [ (js "DB_ENCRYPTION_KEY", accented_key) ].

End Sample.

(* ================================================================= *)
(** ** User: the phone number helpers (user.entity.ts) *)

(** The fields of a [User] that the phone number helpers read and write.
    [None] is [null].  The error object passed to [console.error] is
    recorded by its message. *)
Module User.
Section Entity.

Context {C : Crypto}.

Record t := {
  phoneNumber : option jsstring;
  isPhoneEncrypted : bool;
  tempDecryptedPhone : option jsstring
}.

(** [a !== b] on values that are strings or [null]. *)
Definition differs (a b : option jsstring) : bool :=
  match a, b with
  | Some x, Some y => negb (jsstring_eqb x y)
  | None, None => false
  | _, _ => true
  end.

Definition loadDecryptedPhone (this : t) : t :=
  {| phoneNumber := phoneNumber this;
     isPhoneEncrypted := isPhoneEncrypted this;
     tempDecryptedPhone := phoneNumber this |}.

Definition decryptPhoneNumber (databaseEncryptionService : DatabaseEncryptionService.t)
    (this : t) : Eff t :=
  if isPhoneEncrypted this && negb (falsy (phoneNumber this)) then
    try_catch
      (phone <- DatabaseEncryptionService.decrypt databaseEncryptionService
                  (as_string (phoneNumber this)) ;;
       ret {| phoneNumber := Some phone;
              isPhoneEncrypted := isPhoneEncrypted this;
              tempDecryptedPhone := tempDecryptedPhone this |})
      (fun error =>
         log (ConsoleError [js "Failed to decrypt phone number"; message error]) ;;
         ret {| phoneNumber := Some (js "[Protected]");
                isPhoneEncrypted := isPhoneEncrypted this;
                tempDecryptedPhone := tempDecryptedPhone this |})
  else ret this.

Definition encryptPhoneNumber (databaseEncryptionService : DatabaseEncryptionService.t)
    (this : t) : Eff t :=
  if negb (falsy (phoneNumber this))
     && (negb (isPhoneEncrypted this)
         || differs (phoneNumber this) (tempDecryptedPhone this))
  then
    try_catch
      (phone <- DatabaseEncryptionService.encrypt databaseEncryptionService
                  (as_string (phoneNumber this)) ;;
       ret {| phoneNumber := Some phone;
              isPhoneEncrypted := true;
              tempDecryptedPhone := tempDecryptedPhone this |})
      (fun error =>
         log (ConsoleError [js "Failed to encrypt phone number"; message error]) ;;
         ret {| phoneNumber := None;
                isPhoneEncrypted := false;
                tempDecryptedPhone := tempDecryptedPhone this |})
  else ret this.

End Entity.
End User.

(* ================================================================= *)
(** ** From the signer to the guard *)

(** The MAC has the 32 bytes of SHA-256. *)
Class HmacLaws (C : Crypto) : Prop := {
  hmac_sha256_length : forall key msg, length (hmac_sha256 key msg) = 32%nat
}.

(** What the signer signs for a request configuration. *)
Definition signed_method (config : RequestConfig) : jsstring :=
  or_else (match config_method config with
           | Some m => toUpperCase m
           | None => []
           end) (js "GET").

Definition signed_path (config : RequestConfig) : jsstring :=
  or_else (as_string (config_url config)) [].

Definition signed_body (config : RequestConfig) : jsstring :=
  if js_truthy (config_data config)
  then interpolate (js_json (config_data config))
  else [].

(** What the guard reads as the body of a request. *)
Definition received_body (request : Request) : jsstring :=
  or_else (as_string (js_json (body request))) [].

(** The request that reaches the guard carries the three authentication
    headers of the signed configuration, and the method and path that were
    signed.  (The body is compared apart.) *)
Definition relays (signed : RequestConfig) (request : Request) : Prop :=
  (forall name,
     In name [js "x-service-id"; js "x-request-timestamp"; js "x-request-signature"] ->
     lookup name (headers request)
     = lookup name (match config_headers signed with Some h => h | None => [] end))
  /\ method request = signed_method signed
  /\ path request = signed_path signed.

(* ================================================================= *)
(** ** More concrete inputs *)

Module Scenario.

(** The signer's clock, 100 seconds before the guard's. *)
Definition signer_world : World :=
  {| console := []; clock := 1700000000999;
     entropy := fun _ => x2a; drawn := 0 |}.

Definition client : ServiceAuthClient.t :=
  {| ServiceAuthClient.serviceKey := js "test_user_service_key" |}.

(** What [signRequest] makes of [Sample.unsigned_config] at the signer's
    clock. *)
Definition signed_config {C : Crypto} : RequestConfig :=
  match outcome (ServiceAuthClient.signRequest client Sample.unsigned_config)
          signer_world with
  | Ok config => config
  | Throw _ => Sample.unsigned_config
  end.

(** The signed request as it reaches the guard, with the body given. *)
Definition received {C : Crypto} (body : JsValue) : Request :=
  {| headers := match config_headers signed_config with Some h => h | None => [] end;
     method := js "GET";
     path := js "/users/1";
     body := body |}.

(** The body [{}]. *)
Definition empty_object : JsValue :=
  {| js_truthy := true; js_json := Some (js "{}") |}.

(** A random source that counts. *)
Definition counting_world : World :=
  {| console := []; clock := 1700000100250;
     entropy := fun n => z2b (Z.of_nat n); drawn := 0 |}.

Definition new_user : User.t :=
  {| User.phoneNumber := Some (js "+1234567890");
     User.isPhoneEncrypted := false;
     User.tempDecryptedPhone := None |}.

Definition fallback_cipher : DatabaseEncryptionService.t :=
  {| DatabaseEncryptionService.encryptionKey :=
       utf8_encode DatabaseEncryptionService.fallback_key |}.

End Scenario.

(* ================================================================= *)
(** ** Codec lemmas *)

Lemma b2z_range (b : byte) : 0 <= b2z b < 256.
Proof.
  unfold b2z. pose proof (Byte.to_N_bounded b). lia.
Qed.

Lemma z2b_b2z (b : byte) : z2b (b2z b) = b.
Proof.
  unfold z2b. pose proof (b2z_range b) as H.
  rewrite Z.mod_small by lia. unfold b2z.
  rewrite N2Z.id, Byte.of_to_N. reflexivity.
Qed.

Lemma b2z_z2b (n : Z) : 0 <= n < 256 -> b2z (z2b n) = n.
Proof.
  intros H. unfold z2b. rewrite Z.mod_small by lia.
  destruct (Byte.of_N (Z.to_N n)) as [b|] eqn:E.
  - apply Byte.to_of_N in E. unfold b2z. rewrite E. lia.
  - apply Byte.of_N_None_iff in E. lia.
Qed.

Lemma z2b_eq (n : Z) (b : byte) : n = b2z b -> z2b n = b.
Proof. intros ->. apply z2b_b2z. Qed.

(** Case analysis on the boolean comparisons of a goal, closing the
    impossible branches by arithmetic. *)
Ltac split_cmp :=
  repeat (match goal with
          | |- context [if ?a <? ?b then _ else _] => destruct (Z.ltb_spec a b)
          | |- context [if ?a <=? ?b then _ else _] => destruct (Z.leb_spec a b)
          | |- context [if ?a =? ?b then _ else _] => destruct (Z.eqb_spec a b)
          | |- context [?a <? ?b] => destruct (Z.ltb_spec a b)
          | |- context [?a <=? ?b] => destruct (Z.leb_spec a b)
          | |- context [?a =? ?b] => destruct (Z.eqb_spec a b)
          end; cbn [andb orb negb]; cbv iota; try lia).

Lemma hex_val_digit (n : Z) : 0 <= n < 16 -> hex_val (hex_digit n) = Some n.
Proof.
  intros H. unfold hex_val, hex_digit.
  split_cmp; f_equal; lia.
Qed.

Lemma hex_decode_encode (b : bytes) : hex_decode (hex_encode b) = b.
Proof.
  induction b as [|x b IH]; [reflexivity|].
  pose proof (b2z_range x) as Hx.
  cbn [hex_encode flat_map app hex_decode].
  rewrite !hex_val_digit by arith.
  fold (hex_encode b). rewrite IH. f_equal.
  apply z2b_eq. arith.
Qed.

Lemma b64_val_char (n : Z) : 0 <= n < 64 -> b64_val (b64_char n) = Some n.
Proof.
  intros H. unfold b64_char. split_cmp; unfold b64_val; split_cmp; f_equal; lia.
Qed.

Lemma b64_char_not_pad (n : Z) : 0 <= n < 64 -> (b64_char n =? 61) = false.
Proof.
  intros H. unfold b64_char. split_cmp; reflexivity.
Qed.

(** Induction over a list three elements at a time. *)
Lemma list_ind3 {A} (P : list A -> Prop) :
  P [] -> (forall x, P [x]) -> (forall x y, P [x; y]) ->
  (forall x y z l, P l -> P (x :: y :: z :: l)) ->
  forall l, P l.
Proof.
  intros H0 H1 H2 H3.
  assert (G : forall l, P l /\ (forall x, P (x :: l)) /\ (forall x y, P (x :: y :: l))).
  { induction l as [|a l (IH0 & IH1 & IH2)]; repeat split; auto. }
  intros l. apply G.
Qed.

Lemma b64_sextets_step (n : Z) (t : jsstring) :
  0 <= n < 64 -> b64_sextets (b64_char n :: t) = n :: b64_sextets t.
Proof.
  intros H. cbn [b64_sextets].
  now rewrite b64_char_not_pad, b64_val_char.
Qed.

Lemma base64_decode_encode (b : bytes) : base64_decode (base64_encode b) = b.
Proof.
  unfold base64_decode.
  induction b as [|x|x y|x y z l IH] using list_ind3.
  - reflexivity.
  - pose proof (b2z_range x).
    cbn [base64_encode]. rewrite !b64_sextets_step by arith.
    cbn [b64_sextets Z.eqb Pos.eqb b64_bytes].
    f_equal. apply z2b_eq. arith.
  - pose proof (b2z_range x). pose proof (b2z_range y).
    cbn [base64_encode]. rewrite !b64_sextets_step by arith.
    cbn [b64_sextets Z.eqb Pos.eqb b64_bytes].
    repeat (f_equal; try (apply z2b_eq; arith)).
  - pose proof (b2z_range x). pose proof (b2z_range y). pose proof (b2z_range z).
    cbn [base64_encode]. rewrite !b64_sextets_step by arith.
    cbn [b64_bytes]. rewrite IH.
    repeat (f_equal; try (apply z2b_eq; arith)).
Qed.

(** Known values of the codecs. *)
Example base64_hello :
  base64_encode (utf8_encode (js "Hello, World!")) = js "SGVsbG8sIFdvcmxkIQ=="
  /\ base64_decode (js "SGVsbG8sIFdvcmxkIQ==") = utf8_encode (js "Hello, World!").
Proof. split; reflexivity. Qed.

Example utf8_hex_sample :
  hex_encode (utf8_encode [233; 8364; 55357; 56832; 65]) = js "c3a9e282acf09f988041"
  /\ utf8_decode (hex_decode (js "C3A9E282ACF09F988041")) = [233; 8364; 55357; 56832; 65].
Proof. split; reflexivity. Qed.

Example parseInt_samples :
  parseInt (js "1700000000") = Some 1700000000
  /\ parseInt (js "  -12abc") = Some (-12)
  /\ parseInt (js "0x10") = Some 0
  /\ parseInt (js "abc") = None
  /\ parseInt (js "-") = None.
Proof. repeat split; reflexivity. Qed.

Example slice_samples :
  slice [x01; x02; x03; x04] 1 (-1) = [x02; x03]
  /\ slice_from [x01; x02; x03; x04] (-16) = [x01; x02; x03; x04]
  /\ slice [x01; x02; x03; x04] 16 (-12) = [].
Proof. repeat split; reflexivity. Qed.

(* ================================================================= *)
(** ** UTF-8 *)

(** Deciding the comparisons of a goal one by one by arithmetic. *)
Ltac eval_cmp :=
  repeat match goal with
  | |- context [?a <? ?b] =>
      first [ replace (a <? b) with true by (symmetry; apply Z.ltb_lt; lia)
            | replace (a <? b) with false by (symmetry; apply Z.ltb_ge; lia) ]
  | |- context [?a <=? ?b] =>
      first [ replace (a <=? b) with true by (symmetry; apply Z.leb_le; lia)
            | replace (a <=? b) with false by (symmetry; apply Z.leb_gt; lia) ]
  end;
  cbn [andb orb negb].

Lemma is_continuation_z2b (n : Z) :
  128 <= n < 192 -> is_continuation (z2b n) = true.
Proof.
  intros H. unfold is_continuation. rewrite b2z_z2b by lia.
  split_cmp; reflexivity.
Qed.

Lemma utf8_decode_cons (b0 : byte) (t : bytes) :
  utf8_decode (b0 :: t) = utf8_decode_sequence utf8_decode b0 t.
Proof. reflexivity. Qed.

Lemma utf8_decode_1 (c : Z) (r : bytes) :
  0 <= c < 128 -> utf8_decode (z2b c :: r) = c :: utf8_decode r.
Proof.
  intros H. rewrite utf8_decode_cons. unfold utf8_decode_sequence.
  rewrite b2z_z2b by lia.
  now destruct (Z.ltb_spec c 128); [|lia].
Qed.

Lemma utf8_decode_2 (c : Z) (r : bytes) :
  128 <= c < 2048 -> utf8_decode (utf8_2 c ++ r) = c :: utf8_decode r.
Proof.
  intros H. unfold utf8_2. cbn [app]. rewrite utf8_decode_cons.
  unfold utf8_decode_sequence.
  rewrite is_continuation_z2b by arith.
  rewrite !b2z_z2b by arith.
  replace ((192 + c / 64 - 192) * 64 + (128 + c mod 64 - 128)) with c by arith.
  assert (Ha : 194 <= 192 + c / 64 < 224) by arith.
  set (a := 192 + c / 64) in *. clearbody a.
  eval_cmp. reflexivity.
Qed.

Lemma utf8_decode_3 (c : Z) (r : bytes) :
  2048 <= c < 65536 ->
  is_high_surrogate c = false -> is_low_surrogate c = false ->
  utf8_decode (utf8_3 c ++ r) = c :: utf8_decode r.
Proof.
  intros H Hh Hl. unfold utf8_3. cbn [app]. rewrite utf8_decode_cons.
  unfold utf8_decode_sequence.
  rewrite !is_continuation_z2b by arith.
  rewrite !b2z_z2b by arith.
  replace ((224 + c / 4096 - 224) * 4096 + (128 + (c / 64) mod 64 - 128) * 64
           + (128 + c mod 64 - 128)) with c by arith.
  assert (S : (55296 <=? c) && (c <=? 57343) = false).
  { unfold is_high_surrogate, is_low_surrogate in *. revert Hh Hl.
    split_cmp; cbn; congruence. }
  rewrite S. cbn [negb andb].
  assert (Ha : 224 <= 224 + c / 4096 < 240) by arith.
  set (a := 224 + c / 4096) in *. clearbody a.
  eval_cmp. reflexivity.
Qed.

Lemma utf8_decode_4 (hi lo : Z) (r : bytes) :
  is_high_surrogate hi = true -> is_low_surrogate lo = true ->
  utf8_decode (utf8_4 (pair_code_point hi lo) ++ r) = hi :: lo :: utf8_decode r.
Proof.
  intros Hh Hl.
  assert (Hhi : 55296 <= hi <= 56319).
  { unfold is_high_surrogate in Hh. apply andb_true_iff in Hh. lia. }
  assert (Hlo : 56320 <= lo <= 57343).
  { unfold is_low_surrogate in Hl. apply andb_true_iff in Hl. lia. }
  assert (Hcp : 65536 <= pair_code_point hi lo <= 1114111)
    by (unfold pair_code_point; lia).
  assert (Hu : code_units_of (pair_code_point hi lo) = [hi; lo]).
  { unfold code_units_of, pair_code_point.
    destruct (Z.ltb_spec (65536 + (hi - 55296) * 1024 + (lo - 56320)) 65536); [lia|].
    f_equal; [|f_equal]; arith. }
  set (cp := pair_code_point hi lo) in *.
  unfold utf8_4. cbn [app]. rewrite utf8_decode_cons.
  unfold utf8_decode_sequence.
  rewrite !is_continuation_z2b by arith.
  rewrite !b2z_z2b by arith.
  replace ((240 + cp / 262144 - 240) * 262144
           + (128 + (cp / 4096) mod 64 - 128) * 4096
           + (128 + (cp / 64) mod 64 - 128) * 64 + (128 + cp mod 64 - 128))
    with cp by arith.
  rewrite Hu.
  assert (Ha : 240 <= 240 + cp / 262144 < 245) by arith.
  set (a := 240 + cp / 262144) in *. clearbody a. clearbody cp.
  eval_cmp. reflexivity.
Qed.

(** Decoding inverts encoding on well-formed strings. *)
Lemma utf8_decode_encode (s : jsstring) :
  well_formed s = true -> utf8_decode (utf8_encode s) = s.
Proof.
  assert (G : forall n s, (length s <= n)%nat -> well_formed s = true ->
                          utf8_decode (utf8_encode s) = s).
  { clear s. induction n as [|n IH]; intros s Hn Hw.
    - destruct s; [reflexivity|cbn in Hn; lia].
    - destruct s as [|c t]; [reflexivity|].
      cbn [length] in Hn. cbn [well_formed] in Hw.
      apply andb_true_iff in Hw. destruct Hw as [Hr Hw].
      apply andb_true_iff in Hr. destruct Hr as [Hr0 Hr1].
      apply Z.leb_le in Hr0. apply Z.ltb_lt in Hr1.
      cbn [utf8_encode].
      destruct (Z.ltb_spec c 128) as [H1|H1].
      { assert (Hh : is_high_surrogate c = false)
          by (unfold is_high_surrogate; split_cmp; reflexivity).
        rewrite Hh in Hw. apply andb_true_iff in Hw.
        rewrite utf8_decode_1 by lia. f_equal. apply IH; [lia|tauto]. }
      destruct (Z.ltb_spec c 2048) as [H2|H2].
      { assert (Hh : is_high_surrogate c = false)
          by (unfold is_high_surrogate; split_cmp; reflexivity).
        rewrite Hh in Hw. apply andb_true_iff in Hw.
        rewrite utf8_decode_2 by lia. f_equal. apply IH; [lia|tauto]. }
      destruct (is_high_surrogate c) eqn:Hh.
      { destruct t as [|d t']; [discriminate|].
        apply andb_true_iff in Hw. destruct Hw as [Hl Hw].
        rewrite Hl, utf8_decode_4 by assumption.
        do 2 f_equal. apply IH; [cbn [length] in Hn; lia|exact Hw]. }
      apply andb_true_iff in Hw. destruct Hw as [Hl Hw].
      apply negb_true_iff in Hl. rewrite Hl.
      rewrite utf8_decode_3 by (assumption || lia).
      f_equal. apply IH; [lia|exact Hw]. }
  intros Hw. apply (G (length s)); [lia|exact Hw].
Qed.

(* ================================================================= *)
(** ** Tables and strings *)

Lemma jsstring_eqb_eq (a b : jsstring) : jsstring_eqb a b = true <-> a = b.
Proof.
  unfold jsstring_eqb. destruct (list_eq_dec Z.eq_dec a b); split; congruence.
Qed.

Lemma jsstring_eqb_refl (a : jsstring) : jsstring_eqb a a = true.
Proof. now apply jsstring_eqb_eq. Qed.

Lemma jsstring_eqb_neq (a b : jsstring) : a <> b -> jsstring_eqb a b = false.
Proof.
  intros H. unfold jsstring_eqb. destruct (list_eq_dec Z.eq_dec a b); congruence.
Qed.

Lemma bytes_eqb_eq (a b : bytes) : bytes_eqb a b = true <-> a = b.
Proof.
  unfold bytes_eqb. destruct (list_eq_dec byte_eq_dec a b); split; congruence.
Qed.

Lemma bytes_eqb_refl (a : bytes) : bytes_eqb a a = true.
Proof. now apply bytes_eqb_eq. Qed.

Lemma lookup_assign_same (k v : jsstring) (t : table) :
  lookup k (assign k v t) = Some v.
Proof.
  induction t as [|[k' v'] t IH]; cbn [assign lookup].
  - now rewrite jsstring_eqb_refl.
  - destruct (jsstring_eqb k k') eqn:E; cbn [lookup].
    + now rewrite jsstring_eqb_refl.
    + now rewrite E.
Qed.

Lemma lookup_assign_other (k k' v : jsstring) (t : table) :
  k <> k' -> lookup k (assign k' v t) = lookup k t.
Proof.
  intros Hk.
  induction t as [|[k0 v0] t IH]; cbn [assign lookup].
  - now rewrite jsstring_eqb_neq.
  - destruct (jsstring_eqb k' k0) eqn:E; cbn [lookup].
    + apply jsstring_eqb_eq in E. subst k0.
      now rewrite jsstring_eqb_neq.
    + now rewrite IH.
Qed.

Lemma toUpperCase_length (s : jsstring) : length (toUpperCase s) = length s.
Proof. apply length_map. Qed.

Lemma hex_val_upper (n : Z) :
  0 <= n < 16 ->
  hex_val (if (97 <=? hex_digit n) && (hex_digit n <=? 122)
           then hex_digit n - 32 else hex_digit n) = Some n.
Proof.
  intros H. unfold hex_digit.
  destruct (Z.ltb_spec n 10); cbv iota; split_cmp;
    unfold hex_val; split_cmp; f_equal; lia.
Qed.

(** Hex decoding does not tell upper case from lower case. *)
Lemma hex_decode_upper (b : bytes) :
  hex_decode (toUpperCase (hex_encode b)) = b.
Proof.
  induction b as [|x b IH]; [reflexivity|].
  pose proof (b2z_range x) as Hx.
  cbn [hex_encode flat_map app toUpperCase map hex_decode].
  rewrite !hex_val_upper by arith.
  fold (hex_encode b). fold (toUpperCase (hex_encode b)). rewrite IH. f_equal.
  apply z2b_eq. arith.
Qed.

(* ================================================================= *)
(** ** Buffers: slicing and bit flips *)

Lemma slice_iv (iv rest : bytes) :
  length iv = 16%nat ->
  slice (iv ++ rest) 0 16 = iv.
Proof.
  intros H. unfold slice. rewrite length_app, H.
  cbn [Z.ltb Z.compare]. rewrite Z.min_l, Z.min_l by lia.
  cbn [Z.to_nat skipn]. change (Z.to_nat (16 - 0)) with (length (repeat x00 16)).
  cbn [repeat length]. rewrite <- H. now rewrite firstn_app, Nat.sub_diag, firstn_all, app_nil_r.
Qed.

Lemma slice_tag (iv c tag : bytes) :
  length iv = 16%nat -> length tag = 16%nat ->
  slice_from (iv ++ c ++ tag) (Z.of_nat (length (iv ++ c ++ tag)) - 16) = tag.
Proof.
  intros Hi Ht. unfold slice_from, slice.
  set (len := Z.of_nat (length (iv ++ c ++ tag))).
  assert (Hlen : len = 32 + Z.of_nat (length c)).
  { subst len. rewrite !length_app. lia. }
  destruct (Z.ltb_spec (len - 16) 0); [lia|].
  destruct (Z.ltb_spec len 0); [lia|].
  rewrite !Z.min_l by lia.
  replace (Z.to_nat (len - 16)) with (length (iv ++ c))
    by (rewrite length_app; lia).
  replace (Z.to_nat (len - (len - 16))) with (length tag) by lia.
  rewrite app_assoc, skipn_app, Nat.sub_diag, skipn_all. cbn [app skipn].
  apply firstn_all.
Qed.

Lemma slice_ciphertext (iv c tag : bytes) :
  length iv = 16%nat -> length tag = 16%nat ->
  slice (iv ++ c ++ tag) 16 (Z.of_nat (length (iv ++ c ++ tag)) - 16) = c.
Proof.
  intros Hi Ht. unfold slice.
  set (len := Z.of_nat (length (iv ++ c ++ tag))).
  assert (Hlen : len = 32 + Z.of_nat (length c)).
  { subst len. rewrite !length_app. lia. }
  cbn [Z.ltb Z.compare].
  destruct (Z.ltb_spec (len - 16) 0); [lia|].
  rewrite !Z.min_l by lia.
  replace (Z.to_nat 16) with (length iv) by lia.
  replace (Z.to_nat (len - 16 - 16)) with (length c) by lia.
  rewrite skipn_app, Nat.sub_diag, skipn_all. cbn [app skipn].
  now rewrite firstn_app, Nat.sub_diag, firstn_all, app_nil_r.
Qed.

Lemma base64_encode_truthy (b : bytes) :
  b <> [] -> truthy (base64_encode b) = true.
Proof.
  destruct b as [|x [|y [|z l]]]; [congruence| reflexivity..].
Qed.




(** Flipping a bit of a byte moves its value by a power of two. *)
Lemma flip_byte_delta (i : nat) (b : byte) :
  (i < 8)%nat ->
  b2z (flip_byte i b) - b2z b = 2 ^ Z.of_nat i
  \/ b2z (flip_byte i b) - b2z b = - 2 ^ Z.of_nat i.
Proof.
  intros H.
  do 8 (destruct i as [|i]; [destruct b; vm_compute; auto|]).
  lia.
Qed.



(* ================================================================= *)
(** ** The guard against the verifier of the specification *)

Section GuardFacts.

Context {C : Crypto}.

Import ServiceAuthGuard Verifier.

Lemma falsy_as_string (o : option jsstring) :
  falsy o = negb (truthy (as_string o)).
Proof. destruct o; reflexivity. Qed.

(** [safeCompare] returns what [signatures_equal] computes, in any
    world. *)
Lemma safeCompare_outcome (a b : jsstring) (w : World) :
  outcome (safeCompare a b) w = Ok (signatures_equal a b).
Proof.
  unfold outcome, safeCompare, signatures_equal.
  destruct (length a =? length b)%nat; cbn [negb andb]; [|reflexivity].
  unfold try_catch, lift, timingSafeEqual.
  destruct (length (hex_decode a) =? length (hex_decode b))%nat; reflexivity.
Qed.

(** The guard delivers the verdict of the five ordered checks. *)
Lemma canActivate_verify (g : t) (request : Request) (w : World) :
  outcome (canActivate g request) w
  = delivered (verify g (clock w / 1000) request) request.
Proof.
  unfold outcome, canActivate, verify, check_order, first_failure.
  cbn [passes].
  unfold serviceId_of, timestamp_of, signature_of, header.
  rewrite !falsy_as_string.
  set (sid := as_string (lookup (js "x-service-id") (headers request))).
  set (ts := as_string (lookup (js "x-request-timestamp") (headers request))).
  set (sg := as_string (lookup (js "x-request-signature") (headers request))).
  destruct (truthy sid); [|reflexivity].
  destruct (truthy ts); [|reflexivity].
  destruct (truthy sg); [|reflexivity].
  cbn [negb orb andb].
  destruct (includes (allowedServices g) sid); [|reflexivity].
  cbn [negb]. unfold bind at 1. unfold Date_now at 1.
  destruct (parseInt ts) as [r|]; [|reflexivity].
  rewrite Z.gtb_ltb, Z.ltb_antisym.
  destruct (clock w / 1000 - r <=? 300); [|reflexivity].
  cbn [negb].
  destruct (truthy (as_string (lookup sid (apiKeys g)))); [|reflexivity].
  cbn [negb].
  unfold expected_signature, serviceId_of, timestamp_of, header.
  fold sid ts.
  set (expected := createSignature _ _).
  unfold bind.
  destruct (in_production (configService g)); cbn [negb].
  - unfold ret at 1.
    pose proof (safeCompare_outcome sg expected w) as E. unfold outcome in E.
    destruct (safeCompare sg expected w) as [w' [eq|e]]; cbn in E; try discriminate.
    injection E as ->.
    destruct (signatures_equal sg expected); reflexivity.
  - unfold log at 1.
    set (w1 := Build_World _ _ _ _).
    pose proof (safeCompare_outcome sg expected w1) as E. unfold outcome in E.
    destruct (safeCompare sg expected w1) as [w' [eq|e]]; cbn in E; try discriminate.
    injection E as ->.
    destruct (signatures_equal sg expected); reflexivity.
Qed.

Lemma verify_cases (g : t) (now : Z) (request : Request) :
  let p := passes g now request in
  verify g now request =
    if p HeaderPresence then
      if p KnownService then
        if p FreshTimestamp then
          if p KeyPresent then
            if p SignatureMatch then Accepted else Rejected InvalidSignature
          else Rejected InvalidServiceCredentials
        else Rejected InvalidOrExpiredTimestamp
      else Rejected UnknownService
    else Rejected MissingHeaders.
Proof.
  intros p. unfold verify, check_order, first_failure. fold p.
  destruct (p HeaderPresence), (p KnownService), (p FreshTimestamp),
    (p KeyPresent), (p SignatureMatch); reflexivity.
Qed.

(** Rejection by the first failing check. *)
Lemma rejected_by_first_failure (g : t) (request : Request) (w : World) (c : Check) :
  let p := passes g (clock w / 1000) request in
  p c = false ->
  (forall c', (rank c' < rank c)%nat -> p c' = true) ->
  outcome (canActivate g request) w
  = Throw (UnauthorizedException (rejection_message (rejection_of c) request)).
Proof.
  intros p Hc Hbefore.
  rewrite canActivate_verify, verify_cases. fold p.
  destruct c; cbn [rank] in Hbefore.
  - now rewrite Hc.
  - rewrite (Hbefore HeaderPresence) by (cbn; lia). now rewrite Hc.
  - rewrite (Hbefore HeaderPresence), (Hbefore KnownService) by (cbn; lia).
    now rewrite Hc.
  - rewrite (Hbefore HeaderPresence), (Hbefore KnownService),
      (Hbefore FreshTimestamp) by (cbn; lia).
    now rewrite Hc.
  - rewrite (Hbefore HeaderPresence), (Hbefore KnownService),
      (Hbefore FreshTimestamp), (Hbefore KeyPresent) by (cbn; lia).
    now rewrite Hc.
Qed.

(** Acceptance is the conjunction of the five checks. *)
Lemma accepted_iff_all_pass (g : t) (request : Request) (w : World) :
  outcome (canActivate g request) w = Ok true
  <-> forall c, passes g (clock w / 1000) request c = true.
Proof.
  rewrite canActivate_verify, verify_cases.
  set (p := passes g (clock w / 1000) request).
  split.
  - intros H c.
    destruct (p HeaderPresence) eqn:E1; [|discriminate].
    destruct (p KnownService) eqn:E2; [|discriminate].
    destruct (p FreshTimestamp) eqn:E3; [|discriminate].
    destruct (p KeyPresent) eqn:E4; [|discriminate].
    destruct (p SignatureMatch) eqn:E5; [|discriminate].
    destruct c; assumption.
  - intros H.
    rewrite (H HeaderPresence), (H KnownService), (H FreshTimestamp),
      (H KeyPresent), (H SignatureMatch).
    reflexivity.
Qed.


(** A request that passes the four other checks is accepted exactly when
    its timestamp is fresh. *)
Lemma accepted_when_fresh (g : t) (request : Request) (w : World) :
  let p := passes g (clock w / 1000) request in
  p HeaderPresence = true -> p KnownService = true ->
  p KeyPresent = true -> p SignatureMatch = true ->
  outcome (canActivate g request) w
  = if p FreshTimestamp then Ok true
    else Throw (UnauthorizedException (js "Request expired or invalid timestamp")).
Proof.
  intros p H1 H2 H4 H5.
  rewrite canActivate_verify, verify_cases. fold p.
  rewrite H1, H2, H4, H5. destruct (p FreshTimestamp); reflexivity.
Qed.

(** C2. Among requests that pass the other four checks, a timestamp that
    parses to exactly 300 seconds before the current time is accepted, and
    one that does not parse, or parses to more than 300 seconds before it,
    is rejected as expired or invalid; so [T - 300] is accepted at time [T]
    and [T - 301] is rejected. *)
Theorem freshness_boundary (g : t) (request : Request) (w : World) :
  let currentTime := clock w / 1000 in
  let p := passes g currentTime request in
  let expired :=
    Throw (UnauthorizedException (js "Request expired or invalid timestamp")) in
  p HeaderPresence = true -> p KnownService = true ->
  p KeyPresent = true -> p SignatureMatch = true ->
  (forall requestTime,
     parseInt (timestamp_of request) = Some requestTime ->
     currentTime - requestTime = 300 ->
     outcome (canActivate g request) w = Ok true)
  /\ (forall requestTime,
        parseInt (timestamp_of request) = Some requestTime ->
        currentTime - requestTime > 300 ->
        outcome (canActivate g request) w = expired)
  /\ (parseInt (timestamp_of request) = None ->
      outcome (canActivate g request) w = expired)
  /\ (parseInt (timestamp_of request) = Some (currentTime - 300) ->
      outcome (canActivate g request) w = Ok true)
  /\ (parseInt (timestamp_of request) = Some (currentTime - 301) ->
      outcome (canActivate g request) w = expired).
Proof.
  intros currentTime p expired H1 H2 H4 H5.
  pose proof (accepted_when_fresh g request w H1 H2 H4 H5) as E.
  fold p currentTime in E. rewrite E. clear E.
  subst p. cbn [passes].
  repeat split.
  - intros r -> Hr. destruct (Z.leb_spec (currentTime - r) 300); [reflexivity|lia].
  - intros r -> Hr. destruct (Z.leb_spec (currentTime - r) 300); [lia|reflexivity].
  - intros ->. reflexivity.
  - intros ->.
    destruct (Z.leb_spec (currentTime - (currentTime - 300)) 300); [reflexivity|lia].
  - intros ->.
    destruct (Z.leb_spec (currentTime - (currentTime - 301)) 300); [lia|reflexivity].
Qed.

(** C10. A timestamp that parses to the current time or to any later time
    passes the freshness check, so a request that passes the other four
    checks is accepted however far in the future its timestamp lies. *)
Theorem future_timestamp_fresh (g : t) (request : Request) (w : World)
    (requestTime : Z) :
  let currentTime := clock w / 1000 in
  let p := passes g currentTime request in
  parseInt (timestamp_of request) = Some requestTime ->
  requestTime >= currentTime ->
  p FreshTimestamp = true
  /\ (p HeaderPresence = true -> p KnownService = true ->
      p KeyPresent = true -> p SignatureMatch = true ->
      outcome (canActivate g request) w = Ok true).
Proof.
  intros currentTime p Hparse Hfuture.
  assert (F : p FreshTimestamp = true).
  { subst p. cbn [passes]. rewrite Hparse. apply Z.leb_le. lia. }
  split; [exact F|].
  intros H1 H2 H4 H5.
  pose proof (accepted_when_fresh g request w H1 H2 H4 H5) as E.
  rewrite E. unfold p, currentTime in F. now rewrite F.
Qed.

Lemma header_with_signature (request : Request) (signature : jsstring) :
  serviceId_of (with_signature request signature) = serviceId_of request
  /\ timestamp_of (with_signature request signature) = timestamp_of request
  /\ signature_of (with_signature request signature) = signature.
Proof.
  unfold serviceId_of, timestamp_of, signature_of, header, with_signature.
  cbn [headers].
  rewrite lookup_assign_same, !lookup_assign_other by discriminate.
  now repeat split.
Qed.

(** The four checks before the signature do not read the signature, as
    long as one is supplied. *)
Lemma passes_with_signature (g : t) (now : Z) (request : Request)
    (signature : jsstring) (c : Check) :
  truthy signature = true ->
  c <> SignatureMatch ->
  passes g now request HeaderPresence = true ->
  passes g now (with_signature request signature) c = passes g now request c.
Proof.
  intros Hs Hc Hp.
  destruct (header_with_signature request signature) as (E1 & E2 & E3).
  destruct c; cbn [passes] in *; rewrite ?E1, ?E2, ?E3; try reflexivity.
  - rewrite Hs.
    destruct (truthy (serviceId_of request)), (truthy (timestamp_of request));
      cbn in *; congruence.
  - congruence.
Qed.

Lemma expected_with_signature (g : t) (request : Request) (signature : jsstring) :
  expected_signature g (with_signature request signature)
  = expected_signature g request.
Proof.
  destruct (header_with_signature request signature) as (E1 & E2 & _).
  unfold expected_signature. now rewrite E1, E2.
Qed.

(** C5, as the guard implements it.  A request whose service is in the
    registry with an empty key is never accepted; when its headers are
    present and its timestamp is fresh it is rejected for invalid service
    credentials, whatever signature is supplied. *)
Theorem empty_key_never_accepted (g : t) (request : Request) (w : World) :
  let p := passes g (clock w / 1000) request in
  p KnownService = true ->
  p KeyPresent = false ->
  outcome (canActivate g request) w <> Ok true
  /\ (p HeaderPresence = true -> p FreshTimestamp = true ->
      forall signature,
        truthy signature = true ->
        outcome (canActivate g (with_signature request signature)) w
        = Throw (UnauthorizedException (js "Invalid service credentials"))).
Proof.
  intros p H2 H4. split.
  - rewrite canActivate_verify, verify_cases. fold p. rewrite H2, H4.
    destruct (p HeaderPresence), (p FreshTimestamp); discriminate.
  - intros H1 H3 signature Hs.
    rewrite canActivate_verify, verify_cases.
    rewrite !(passes_with_signature g _ request signature) by
      (assumption || discriminate).
    fold p. now rewrite H1, H2, H3, H4.
Qed.

(** C9. The comparison decodes both signatures from hex, so when the
    expected lower-case signature makes a request accepted, the same
    request with that signature in upper case is accepted too; the two
    strings have the same length and differ as soon as the signature
    contains a letter. *)
Theorem uppercase_signature_accepted (g : t) (request : Request) (w : World) :
  let s := signature_of request in
  let upper := toUpperCase s in
  s = expected_signature g request ->
  outcome (canActivate g request) w = Ok true ->
  signatures_equal upper (expected_signature g request) = true
  /\ outcome (canActivate g (with_signature request upper)) w = Ok true
  /\ length upper = length s
  /\ ((exists c, In c s /\ 97 <= c <= 102) -> upper <> s).
Proof.
  intros s upper Hs Hacc.
  assert (Heq : signatures_equal upper (expected_signature g request) = true).
  { subst upper. rewrite Hs. unfold signatures_equal, expected_signature, createSignature.
    rewrite toUpperCase_length, Nat.eqb_refl.
    rewrite hex_decode_upper, hex_decode_encode, Nat.eqb_refl.
    now rewrite bytes_eqb_refl. }
  split; [exact Heq|].
  pose proof (proj1 (accepted_iff_all_pass g request w) Hacc) as Hall.
  assert (Hup : truthy upper = true).
  { pose proof (Hall HeaderPresence) as H. cbn [passes] in H.
    fold s in H. subst upper.
    destruct s; [now rewrite !andb_false_r in H | reflexivity]. }
  split; [|split].
  - apply accepted_iff_all_pass.
    intros c. destruct c.
    1-4: rewrite passes_with_signature by (auto; discriminate); apply Hall.
    cbn [passes].
    destruct (header_with_signature request upper) as (_ & _ & ->).
    now rewrite expected_with_signature.
  - apply toUpperCase_length.
  - intros (c & Hin & Hc) E.
    subst upper. unfold toUpperCase in E.
    clear - Hin Hc E. induction s as [|a s IH]; [contradiction|].
    cbn [map] in E. injection E as Ea Es.
    destruct Hin as [->|Hin]; [|auto].
    revert Ea. split_cmp.
Qed.

End GuardFacts.

(* ================================================================= *)
(** ** The field cipher *)

Section CipherFacts.

Context {C : Crypto}.

Import DatabaseEncryptionService.

Lemma written_log {A} (l : LogLine) (k : Eff A) (w : World) (a : result A) :
  (forall w', k w' = (w', a)) ->
  written (log l ;; k) w = [l] /\ outcome (log l ;; k) w = a.
Proof.
  intros H. unfold written, outcome, bind, log. rewrite H. cbn [fst snd console].
  rewrite skipn_app, Nat.sub_diag, skipn_all. split; reflexivity.
Qed.

Lemma truthy_nonempty (s : jsstring) : s <> [] -> truthy s = true.
Proof. destruct s; [congruence|reflexivity]. Qed.

(** With a key of 32 bytes, encrypting a non-empty text draws a 16-byte
    IV and returns the base64 of IV, ciphertext and tag. *)
Lemma encrypt_ok (this : t) (text : jsstring) (w : World) :
  length (encryptionKey this) = 32%nat ->
  text <> [] ->
  let key := encryptionKey this in
  let iv := map (entropy w) (seq (drawn w) ivLength) in
  let c := gcm_crypt key iv (utf8_encode text) in
  outcome (encrypt this text) w = Ok (base64_encode (iv ++ c ++ gcm_tag key iv c))
  /\ written (encrypt this text) w = [].
Proof.
  intros Hkey Htext key iv c.
  unfold outcome, written, encrypt.
  rewrite (truthy_nonempty text Htext). cbn [negb].
  unfold try_catch, bind, randomBytes, lift, createCipheriv, algorithm.
  rewrite jsstring_eqb_refl. cbn [negb].
  rewrite Hkey. cbn [Nat.eqb negb].
  rewrite length_map, length_seq. cbn [ivLength Nat.eqb].
  unfold cipher_update, cipher_final, cipher_getAuthTag, ret.
  cbn [cipher_key cipher_iv cipher_text hex_encode flat_map app fst snd console].
  rewrite app_nil_r, hex_decode_encode.
  split; [reflexivity|]. now rewrite skipn_all.
Qed.

Lemma decipher_key_ok (this : t) (iv : bytes) :
  length (encryptionKey this) = 32%nat ->
  length iv = 16%nat ->
  createDecipheriv algorithm (encryptionKey this) iv
  = Ok {| decipher_key := encryptionKey this; decipher_iv := iv;
          decipher_tag := None; decipher_text := [] |}.
Proof.
  intros Hkey Hiv. unfold createDecipheriv, algorithm.
  rewrite jsstring_eqb_refl, Hkey, Hiv. reflexivity.
Qed.

(** Decrypting a well-framed blob under a 32-byte key: the plaintext when
    the tag is the tag of IV and ciphertext, the placeholder and an error
    line otherwise. *)
Lemma decrypt_blob (this : t) (iv c tag : bytes) (w : World) :
  length (encryptionKey this) = 32%nat ->
  length iv = 16%nat -> length tag = 16%nat ->
  length (gcm_tag (encryptionKey this) iv c) = 16%nat ->
  let key := encryptionKey this in
  let m := decrypt this (base64_encode (iv ++ c ++ tag)) in
  if bytes_eqb tag (gcm_tag key iv c)
  then outcome m w = Ok (utf8_decode (gcm_crypt key iv c)) /\ written m w = []
  else outcome m w = Ok decryption_failed
       /\ written m w
          = [ConsoleError [js "Decryption error:";
                           js "Unsupported state or unable to authenticate data"]].
Proof.
  intros Hkey Hiv Htag Hexp key m. subst m.
  unfold outcome, written, decrypt.
  rewrite base64_encode_truthy by (destruct iv; [discriminate|discriminate]).
  cbn [negb]. rewrite base64_decode_encode.
  cbn [ivLength authTagLength]. change (Z.of_nat 16) with 16.
  rewrite slice_iv, slice_tag, slice_ciphertext by assumption.
  unfold try_catch, bind, lift.
  rewrite decipher_key_ok by assumption.
  unfold decipher_setAuthTag. rewrite Htag. cbn [existsb Nat.eqb orb].
  unfold decipher_update, decipher_final.
  cbn [decipher_key decipher_iv decipher_tag decipher_text app].
  rewrite hex_decode_encode, Htag.
  rewrite firstn_all2 by lia. fold key.
  destruct (bytes_eqb tag (gcm_tag key iv c)).
  - unfold ret. cbn [fst snd utf8_decode]. rewrite app_nil_r, skipn_all.
    split; reflexivity.
  - unfold log, ret. cbn [fst snd console message].
    rewrite skipn_app, Nat.sub_diag, skipn_all. split; reflexivity.
Qed.

(** A key that does not have 32 bytes makes every encryption throw and
    every decryption return the placeholder. *)
Lemma encrypt_bad_key (this : t) (text : jsstring) (w : World) :
  length (encryptionKey this) <> 32%nat ->
  text <> [] ->
  outcome (encrypt this text) w = Throw (JsError (js "Failed to encrypt data"))
  /\ written (encrypt this text) w
     = [ConsoleError [js "Encryption error:"; js "Invalid key length"]].
Proof.
  intros Hkey Htext.
  unfold outcome, written, encrypt.
  rewrite (truthy_nonempty text Htext). cbn [negb].
  unfold try_catch, bind, randomBytes, lift, createCipheriv, algorithm.
  rewrite jsstring_eqb_refl. cbn [negb].
  apply Nat.eqb_neq in Hkey. rewrite Hkey. cbn [negb].
  unfold log, throw. cbn [fst snd console message].
  rewrite skipn_app, Nat.sub_diag, skipn_all. split; reflexivity.
Qed.

Lemma decrypt_bad_key (this : t) (encryptedText : jsstring) (w : World) :
  length (encryptionKey this) <> 32%nat ->
  encryptedText <> [] ->
  outcome (decrypt this encryptedText) w = Ok decryption_failed
  /\ written (decrypt this encryptedText) w
     = [ConsoleError [js "Decryption error:"; js "Invalid key length"]].
Proof.
  intros Hkey Htext.
  unfold outcome, written, decrypt.
  rewrite (truthy_nonempty _ Htext). cbn [negb].
  unfold try_catch, bind, lift, createDecipheriv, algorithm.
  rewrite jsstring_eqb_refl. cbn [negb].
  apply Nat.eqb_neq in Hkey. rewrite Hkey. cbn [negb].
  unfold log, ret. cbn [fst snd console message].
  rewrite skipn_app, Nat.sub_diag, skipn_all. split; reflexivity.
Qed.

Lemma constructor_fallback (cfg : ConfigService) (w : World) :
  key_missing_or_short (config_get cfg (js "DB_ENCRYPTION_KEY") []) = true ->
  outcome (constructor cfg) w = Ok {| encryptionKey := utf8_encode fallback_key |}
  /\ written (constructor cfg) w
     = [ConsoleWarn [js "Warning: DB_ENCRYPTION_KEY is missing or too short. Defaulting to a development key."]].
Proof.
  intros H. unfold constructor. rewrite H.
  unfold written, outcome, bind, log, ret. cbn [fst snd console].
  rewrite skipn_app, Nat.sub_diag, skipn_all. split; reflexivity.
Qed.


(** C8. When [DB_ENCRYPTION_KEY] is missing or shorter than 32 characters
    the key the service holds has 35 bytes, which is not an AES-256 key:
    every encryption of a non-empty text throws "Failed to encrypt data",
    and every decryption of a non-empty input returns the placeholder
    "[Decryption failed]". *)
Theorem fallback_key_unusable (cfg : ConfigService) (w : World) :
  key_missing_or_short (config_get cfg (js "DB_ENCRYPTION_KEY") []) = true ->
  exists this,
    outcome (constructor cfg) w = Ok this
    /\ length (encryptionKey this) = 35%nat
    /\ (forall text w',
          text <> [] ->
          outcome (encrypt this text) w'
          = Throw (JsError (js "Failed to encrypt data")))
    /\ (forall encryptedText w',
          encryptedText <> [] ->
          outcome (decrypt this encryptedText) w'
          = Ok (js "[Decryption failed]")).
Proof.
  intros H. destruct (constructor_fallback cfg w H) as [E _].
  eexists. split; [exact E|].
  assert (L : length (utf8_encode fallback_key) = 35%nat) by reflexivity.
  cbn [encryptionKey]. split; [exact L|]. split.
  - intros text w' Ht. apply encrypt_bad_key; [cbn [encryptionKey]; lia|exact Ht].
  - intros text w' Ht. apply decrypt_bad_key; [cbn [encryptionKey]; lia|exact Ht].
Qed.

(** C4, where the service departs from it.  A key of 32 characters that
    are not ASCII is taken as configured, but its first 32 characters
    encode to 64 bytes; the service then cannot encrypt at all, so there is
    nothing to decrypt back. *)
Theorem non_ascii_key_cannot_encrypt (w w' : World) :
  length Sample.accented_key = 32%nat
  /\ key_missing_or_short
       (config_get Sample.accented_config (js "DB_ENCRYPTION_KEY") []) = false
  /\ exists this,
       outcome (constructor Sample.accented_config) w = Ok this
       /\ length (encryptionKey this) = 64%nat
       /\ outcome (encrypt this (js "a")) w'
          = Throw (JsError (js "Failed to encrypt data")).
Proof.
  split; [reflexivity|]. split; [reflexivity|].
  eexists. split; [reflexivity|].
  split; [reflexivity|].
  apply encrypt_bad_key; [vm_compute; lia|discriminate].
Qed.

Lemma bytes_eqb_neq (a b : bytes) : a <> b -> bytes_eqb a b = false.
Proof.
  intros H. unfold bytes_eqb. destruct (list_eq_dec byte_eq_dec a b); congruence.
Qed.


(** Under a 32-byte key the blob of a non-empty well-formed text decrypts
    to that text. *)
Lemma decrypt_encrypt_roundtrip {L : CryptoLaws C} (this : t) (text : jsstring)
    (w : World) :
  length (encryptionKey this) = 32%nat ->
  text <> [] ->
  well_formed text = true ->
  exists blob,
    outcome (encrypt this text) w = Ok blob
    /\ forall w', outcome (decrypt this blob) w' = Ok text.
Proof.
  intros Hkey Htext Hwf.
  destruct (encrypt_ok this text w Hkey Htext) as [E _].
  cbv zeta in E.
  set (key := encryptionKey this) in *.
  set (iv := map (entropy w) (seq (drawn w) ivLength)) in *.
  set (c := gcm_crypt key iv (utf8_encode text)) in *.
  assert (Hiv : length iv = 16%nat)
    by (subst iv; now rewrite length_map, length_seq).
  eexists. split; [exact E|]. intros w'.
  pose proof (decrypt_blob this iv c (gcm_tag key iv c) w') as D.
  cbv zeta in D. fold key in D. rewrite bytes_eqb_refl in D.
  destruct D as [D _]; try assumption; try apply gcm_tag_length.
  rewrite D. subst c. now rewrite gcm_crypt_involutive, utf8_decode_encode.
Qed.

Lemma utf8_encode_ascii_length (s : jsstring) :
  Forall (fun c => 0 <= c < 128) s ->
  length (utf8_encode s) = length s.
Proof.
  induction 1 as [|c s Hc _ IH]; [reflexivity|].
  cbn [utf8_encode]. destruct (Z.ltb_spec c 128); [|lia].
  cbn [length]. now rewrite IH.
Qed.

(** X9. A configured key of at least 32 characters whose first 32 are ASCII
    gives a 32-byte key, and with it the round trip. *)
Lemma roundtrip_with_ascii_key {L : CryptoLaws C} (cfg : ConfigService)
    (text : jsstring) (w0 w : World) :
  let keyString := config_get cfg (js "DB_ENCRYPTION_KEY") [] in
  (32 <= length keyString)%nat ->
  Forall (fun c => 0 <= c < 128) (firstn 32 keyString) ->
  text <> [] ->
  well_formed text = true ->
  exists this blob,
    outcome (constructor cfg) w0 = Ok this
    /\ outcome (encrypt this text) w = Ok blob
    /\ forall w', outcome (decrypt this blob) w' = Ok text.
Proof.
  intros keyString Hlen Hascii Htext Hwf.
  assert (Hk : key_missing_or_short keyString = false).
  { unfold key_missing_or_short.
    destruct keyString; [cbn in Hlen; lia|]. cbn [truthy negb orb].
    apply Nat.ltb_ge. exact Hlen. }
  exists {| encryptionKey := utf8_encode (str_slice0 keyString 32) |}.
  assert (Hkey : length (utf8_encode (str_slice0 keyString 32)) = 32%nat).
  { unfold str_slice0. rewrite utf8_encode_ascii_length by exact Hascii.
    rewrite length_firstn. lia. }
  destruct (decrypt_encrypt_roundtrip
              {| encryptionKey := utf8_encode (str_slice0 keyString 32) |}
              text w Hkey Htext Hwf) as (blob & E & D).
  exists blob. split; [|split; assumption].
  unfold constructor. fold keyString. rewrite Hk. reflexivity.
Qed.

End CipherFacts.

(* ================================================================= *)
(** ** The checksum instance satisfies the laws *)

Lemma complement_involutive (b : byte) : complement (complement b) = b.
Proof.
  unfold complement. pose proof (b2z_range b).
  rewrite b2z_z2b by lia. apply z2b_eq. lia.
Qed.

Lemma checksum_app (a b : bytes) : checksum (a ++ b) = checksum a + checksum b.
Proof.
  unfold checksum. induction a as [|x a IH]; cbn [app fold_right]; lia.
Qed.

Lemma checksum_flip (i : nat) (l : bytes) :
  (i < 8 * length l)%nat ->
  exists k, (k < 8)%nat
    /\ (checksum (flip_bit i l) - checksum l = 2 ^ Z.of_nat k
        \/ checksum (flip_bit i l) - checksum l = - 2 ^ Z.of_nat k).
Proof.
  revert i. induction l as [|b l IH]; intros i H; cbn [length] in H; [lia|].
  cbn [flip_bit]. destruct (Nat.ltb_spec i 8).
  - exists i. split; [assumption|].
    unfold checksum. cbn [fold_right].
    destruct (flip_byte_delta i b) as [D|D]; [assumption| |]; lia.
  - destruct (IH (i - 8)%nat) as (k & Hk & D); [lia|].
    exists k. split; [assumption|].
    unfold checksum in *. cbn [fold_right]. lia.
Qed.

Lemma z2b_eq_mod (m n : Z) : z2b m = z2b n -> m mod 256 = n mod 256.
Proof.
  intros E.
  assert (Hm : b2z (z2b (m mod 256)) = m mod 256)
    by (apply b2z_z2b; apply Z.mod_pos_bound; lia).
  assert (Hn : b2z (z2b (n mod 256)) = n mod 256)
    by (apply b2z_z2b; apply Z.mod_pos_bound; lia).
  assert (E' : z2b (m mod 256) = z2b (n mod 256)).
  { unfold z2b in *. now rewrite !Z.mod_mod by lia. }
  congruence.
Qed.

Lemma ChecksumCrypto_laws : CryptoLaws ChecksumCrypto.
Proof.
  split.
  - intros key iv data. cbn [gcm_crypt ChecksumCrypto].
    rewrite map_map. rewrite <- (map_id data) at 2.
    apply map_ext. apply complement_involutive.
  - intros key iv c. cbn [gcm_tag ChecksumCrypto length].
    now rewrite repeat_length.
  - intros key iv c i _ Hi d. cbn [gcm_tag ChecksumCrypto].
    intros E. injection E as E. apply z2b_eq_mod in E.
    rewrite firstn_skipn in E.
    rewrite !checksum_app in E.
    destruct (checksum_flip i (iv ++ c) Hi) as (k & Hk & D). fold d in D.
    rewrite checksum_app in D.
    do 8 (destruct k as [|k]; [cbn in D; destruct D; arith|]).
    lia.
Qed.

(* ================================================================= *)
(** ** The outbound signer *)

Section ClientFacts.

Context {C : Crypto}.

Import ServiceAuthClient.

Lemma signRequest_headers (this : t) (config : RequestConfig) (w : World) :
  let timestamp := Z_toString (clock w / 1000) in
  let method :=
    or_else (match config_method config with
             | Some m => toUpperCase m
             | None => []
             end) (js "GET") in
  let path := or_else (as_string (config_url config)) [] in
  let bodyContent :=
    if js_truthy (config_data config)
    then interpolate (js_json (config_data config)) else [] in
  let content :=
    method ++ colon ++ path ++ colon ++ timestamp ++ colon ++ bodyContent in
  exists config' headers',
    outcome (signRequest this config) w = Ok config'
    /\ config_headers config' = Some headers'
    /\ lookup (js "x-service-id") headers' = Some (js "user-service")
    /\ lookup (js "x-request-timestamp") headers' = Some timestamp
    /\ lookup (js "x-request-signature") headers'
       = Some (createSignature content (serviceKey this)).
Proof.
  intros timestamp method path bodyContent content.
  unfold outcome, signRequest, bind, Date_now, ret. cbn [snd].
  eexists. eexists. split; [reflexivity|]. cbn [config_headers].
  split; [reflexivity|].
  rewrite lookup_assign_same, !lookup_assign_other, !lookup_assign_same
    by discriminate.
  rewrite lookup_assign_other, lookup_assign_same by discriminate.
  repeat split.
Qed.

(** C7, as the signer implements it.  When [USER_SERVICE_KEY] is not
    configured, construction does not fail: it writes a warning to the
    console and keeps the empty key, and the signer then puts the three
    authentication headers on a request, the signature being the HMAC
    under the empty key. *)
Theorem unkeyed_signer_signs (cfg : ConfigService) (w : World) :
  truthy (config_get cfg (js "USER_SERVICE_KEY") []) = false ->
  outcome (constructor cfg) w = Ok {| serviceKey := [] |}
  /\ written (constructor cfg) w
     = [ConsoleWarn [js "Warning: USER_SERVICE_KEY is not set. Service authentication will fail."]]
  /\ forall (config : RequestConfig) (w' : World),
       exists config' headers' content,
         outcome (signRequest {| serviceKey := [] |} config) w' = Ok config'
         /\ config_headers config' = Some headers'
         /\ lookup (js "x-service-id") headers' = Some (js "user-service")
         /\ lookup (js "x-request-timestamp") headers'
            = Some (Z_toString (clock w' / 1000))
         /\ lookup (js "x-request-signature") headers'
            = Some (createSignature content []).
Proof.
  intros H.
  assert (K : config_get cfg (js "USER_SERVICE_KEY") [] = [])
    by (destruct (config_get cfg (js "USER_SERVICE_KEY") []); [reflexivity|discriminate]).
  split; [|split].
  - unfold outcome, constructor, bind. rewrite H. cbn [negb log ret snd].
    now rewrite K.
  - unfold written, constructor, bind. rewrite H. cbn [negb log ret fst console].
    now rewrite skipn_app, Nat.sub_diag, skipn_all.
  - intros config w'.
    destruct (signRequest_headers {| serviceKey := [] |} config w')
      as (config' & headers' & E & Hh & H1 & H2 & H3).
    exists config', headers'. eexists. repeat split; eassumption.
Qed.

End ClientFacts.

(* ================================================================= *)
(** ** The theorems on concrete inputs

    The guard, the signer and the cipher run here with the checksum
    instance of the primitives. *)



Lemma freshness_boundary_witness :
  let request :=
    Sample.signed_request (C := ChecksumCrypto) (js "user-service") (js "1699999800") in
  let p := Verifier.passes (C := ChecksumCrypto) Sample.guard
             (clock Sample.world / 1000) request in
  p Verifier.HeaderPresence = true /\ p Verifier.KnownService = true
  /\ p Verifier.KeyPresent = true /\ p Verifier.SignatureMatch = true
  /\ parseInt (Verifier.timestamp_of request) = Some (clock Sample.world / 1000 - 300)
  /\ outcome (ServiceAuthGuard.canActivate (C := ChecksumCrypto) Sample.guard request)
       Sample.world = Ok true.
Proof.
  cbv zeta.
  split; [vm_compute; reflexivity|]. split; [vm_compute; reflexivity|].
  split; [vm_compute; reflexivity|]. split; [vm_compute; reflexivity|].
  split; [vm_compute; reflexivity|].
  apply (freshness_boundary (C := ChecksumCrypto) Sample.guard _ Sample.world);
    vm_compute; reflexivity.
Defined.


Lemma empty_key_never_accepted_witness :
  let request :=
    Sample.signed_request (C := ChecksumCrypto) (js "pet-service") (js "1700000000") in
  let p := Verifier.passes (C := ChecksumCrypto) Sample.guard
             (clock Sample.world / 1000) request in
  p Verifier.KnownService = true /\ p Verifier.KeyPresent = false
  /\ p Verifier.HeaderPresence = true /\ p Verifier.FreshTimestamp = true
  /\ outcome (ServiceAuthGuard.canActivate (C := ChecksumCrypto) Sample.guard
                (Verifier.with_signature request (js "00ff")))
       Sample.world
     = Throw (UnauthorizedException (js "Invalid service credentials")).
Proof.
  cbv zeta.
  split; [vm_compute; reflexivity|]. split; [vm_compute; reflexivity|].
  split; [vm_compute; reflexivity|]. split; [vm_compute; reflexivity|].
  apply (empty_key_never_accepted (C := ChecksumCrypto) Sample.guard _ Sample.world);
    vm_compute; reflexivity.
Defined.

(** The sample guard is the one the constructor builds from the sample
    configuration. *)
Lemma sample_guard_constructed :
  outcome (ServiceAuthGuard.constructor Sample.service_keys) Sample.world
  = Ok Sample.guard.
Proof. reflexivity. Qed.

(** C5 as stated fails: a registered service with an empty key, whose
    timestamp is stale, is rejected for the timestamp and not for its
    credentials. *)
Lemma empty_key_stale_timestamp :
  let request := Sample.request (js "pet-service") (js "1699999799") (js "00ff") in
  ServiceAuthGuard.includes (ServiceAuthGuard.allowedServices Sample.guard)
    (js "pet-service") = true
  /\ lookup (js "pet-service") (ServiceAuthGuard.apiKeys Sample.guard) = Some []
  /\ outcome (ServiceAuthGuard.canActivate (C := ChecksumCrypto) Sample.guard request)
       Sample.world
     = Throw (UnauthorizedException (js "Request expired or invalid timestamp"))
  /\ outcome (ServiceAuthGuard.canActivate (C := ChecksumCrypto) Sample.guard request)
       Sample.world
     <> Throw (UnauthorizedException (js "Invalid service credentials")).
Proof.
  cbv zeta. split; [vm_compute; reflexivity|]. split; [vm_compute; reflexivity|].
  assert (E : outcome (ServiceAuthGuard.canActivate (C := ChecksumCrypto) Sample.guard
                         (Sample.request (js "pet-service") (js "1699999799") (js "00ff")))
                Sample.world
              = Throw (UnauthorizedException (js "Request expired or invalid timestamp")))
    by (vm_compute; reflexivity).
  split; [exact E|]. rewrite E. discriminate.
Qed.

(** The sample cipher is the one the constructor builds from the sample
    configuration. *)
Lemma sample_cipher_constructed :
  outcome (DatabaseEncryptionService.constructor Sample.encryption_config)
    Sample.world
  = Ok Sample.cipher.
Proof. reflexivity. Qed.


Lemma unkeyed_signer_signs_witness :
  truthy (config_get [] (js "USER_SERVICE_KEY") []) = false
  /\ outcome (ServiceAuthClient.constructor []) Sample.world
     = Ok {| ServiceAuthClient.serviceKey := [] |}.
Proof.
  split; [reflexivity|].
  apply (unkeyed_signer_signs (C := ChecksumCrypto) [] Sample.world). reflexivity.
Defined.

(** C7 as stated fails: without [USER_SERVICE_KEY] the signer is
    constructed, and it signs a request with the empty key. *)
Lemma unkeyed_signer_constructed :
  lookup (js "USER_SERVICE_KEY") [] = None
  /\ outcome (ServiceAuthClient.constructor []) Sample.world
     = Ok {| ServiceAuthClient.serviceKey := [] |}
  /\ exists config',
       outcome (ServiceAuthClient.signRequest (C := ChecksumCrypto)
                  {| ServiceAuthClient.serviceKey := [] |} Sample.unsigned_config)
         Sample.world = Ok config'
       /\ option_map (lookup (js "x-request-signature")) (config_headers config')
          = Some (Some (ServiceAuthClient.createSignature (C := ChecksumCrypto)
                          (js "GET:/users/1:1700000100:") [])).
Proof.
  split; [reflexivity|]. split; [reflexivity|].
  eexists. split; [vm_compute; reflexivity|]. vm_compute. reflexivity.
Qed.

Lemma fallback_key_unusable_witness :
  DatabaseEncryptionService.key_missing_or_short
    (config_get [(js "DB_ENCRYPTION_KEY", js "too short")] (js "DB_ENCRYPTION_KEY") [])
  = true
  /\ exists this,
       outcome (DatabaseEncryptionService.constructor
                  [(js "DB_ENCRYPTION_KEY", js "too short")]) Sample.world = Ok this
       /\ length (DatabaseEncryptionService.encryptionKey this) = 35%nat
       /\ outcome (DatabaseEncryptionService.encrypt (C := ChecksumCrypto) this
                     (js "+1234567890")) Sample.world
          = Throw (JsError (js "Failed to encrypt data")).
Proof.
  split; [reflexivity|].
  destruct (fallback_key_unusable (C := ChecksumCrypto)
              [(js "DB_ENCRYPTION_KEY", js "too short")] Sample.world)
    as (this & E & L & He & _); [reflexivity|].
  exists this. split; [exact E|]. split; [exact L|].
  apply He. discriminate.
Defined.

Lemma uppercase_signature_accepted_witness :
  let request :=
    Sample.signed_request (C := ChecksumCrypto) (js "user-service") (js "1700000000") in
  let s := Verifier.signature_of request in
  s = Verifier.expected_signature (C := ChecksumCrypto) Sample.guard request
  /\ outcome (ServiceAuthGuard.canActivate (C := ChecksumCrypto) Sample.guard request)
       Sample.world = Ok true
  /\ toUpperCase s <> s
  /\ outcome (ServiceAuthGuard.canActivate (C := ChecksumCrypto) Sample.guard
                (Verifier.with_signature request (toUpperCase s)))
       Sample.world = Ok true.
Proof.
  cbv zeta.
  split; [vm_compute; reflexivity|]. split; [vm_compute; reflexivity|].
  split; [vm_compute; discriminate|].
  apply (uppercase_signature_accepted (C := ChecksumCrypto) Sample.guard _ Sample.world);
    vm_compute; reflexivity.
Defined.

Lemma future_timestamp_fresh_witness :
  let request :=
    Sample.signed_request (C := ChecksumCrypto) (js "user-service") (js "99999999999") in
  parseInt (Verifier.timestamp_of request) = Some 99999999999
  /\ 99999999999 >= clock Sample.world / 1000
  /\ outcome (ServiceAuthGuard.canActivate (C := ChecksumCrypto) Sample.guard request)
       Sample.world = Ok true.
Proof.
  cbv zeta.
  split; [vm_compute; reflexivity|]. split; [vm_compute; discriminate|].
  apply (future_timestamp_fresh (C := ChecksumCrypto) Sample.guard _ Sample.world
           99999999999);
    vm_compute; (reflexivity || discriminate).
Defined.

(* ================================================================= *)
(** ** Numbers written and read back *)

Lemma parse_digits_uint (d : Decimal.uint) (acc : Z) :
  parse_digits acc (js (NilEmpty.string_of_uint d))
  = acc * 10 ^ Z.of_N (DecimalPos.Unsigned.usize d)
    + Z.of_N (DecimalPos.Unsigned.of_lu (Decimal.rev d)).
Proof.
  revert acc. induction d; intros acc;
    [cbn; lia | ..];
    cbn [NilEmpty.string_of_uint js parse_digits];
    change (is_digit _) with true; cbv iota;
    rewrite IHd; unfold Decimal.rev; cbn [Decimal.revapp DecimalPos.Unsigned.usize];
    rewrite (DecimalPos.Unsigned.of_lu_revapp d (_ Decimal.Nil));
    fold (Decimal.rev d);
    rewrite N2Z.inj_add, N2Z.inj_mul, N2Z.inj_pow, N2Z.inj_succ, Z.pow_succ_r by lia;
    change (Z.of_N 10) with 10;
    generalize (10 ^ Z.of_N (DecimalPos.Unsigned.usize d));
    generalize (Z.of_N (DecimalPos.Unsigned.of_lu (Decimal.rev d)));
    intros x P; vm_compute (Z.of_N (DecimalPos.Unsigned.of_lu (_ Decimal.Nil)));
    vm_compute (Z.of_N (N_of_ascii _)); ring.
Qed.

Lemma parseInt_unsigned (c : Z) (t : jsstring) :
  48 <= c <= 57 ->
  parseInt (c :: t) = Some (parse_digits 0 (c :: t))
  /\ parseInt (45 :: c :: t) = Some (- parse_digits 0 (c :: t)).
Proof.
  intros H.
  assert (E : c = 48 \/ c = 49 \/ c = 50 \/ c = 51 \/ c = 52 \/ c = 53
              \/ c = 54 \/ c = 55 \/ c = 56 \/ c = 57) by lia.
  unfold parseInt.
  repeat (destruct E as [->|E]; [split; cbn -[parse_digits Z.mul]; f_equal; lia|]).
  subst c. split; cbn -[parse_digits Z.mul]; f_equal; lia.
Qed.

(** [parseInt] reads back the integer that [toString] wrote. *)
Lemma parseInt_Z_toString (n : Z) : parseInt (Z_toString n) = Some n.
Proof.
  assert (P : forall p, parse_digits 0 (js (NilEmpty.string_of_uint (Pos.to_uint p)))
                        = Z.pos p).
  { intros p. rewrite parse_digits_uint.
    rewrite <- DecimalPos.Unsigned.of_uint_alt, DecimalPos.Unsigned.of_to.
    reflexivity. }
  assert (D : forall p, exists c t,
             js (NilZero.string_of_uint (Pos.to_uint p)) = c :: t
             /\ js (NilEmpty.string_of_uint (Pos.to_uint p)) = c :: t
             /\ 48 <= c <= 57).
  { intros p. pose proof (DecimalPos.Unsigned.to_uint_nonnil p) as Hn.
    destruct (Pos.to_uint p); [congruence|..];
      cbn [NilZero.string_of_uint NilEmpty.string_of_uint js];
      eexists; eexists;
      (split; [reflexivity|split; [reflexivity|vm_compute; split; discriminate]]). }
  unfold Z_toString. destruct n as [|p|p]; [reflexivity|..].
  - cbn [Z.to_int NilZero.string_of_int].
    destruct (D p) as (c & t & E1 & E2 & Hc). specialize (P p). rewrite E2 in P.
    rewrite E1. rewrite (proj1 (parseInt_unsigned c t Hc)). now rewrite P.
  - cbn [Z.to_int NilZero.string_of_int js].
    destruct (D p) as (c & t & E1 & E2 & Hc). specialize (P p). rewrite E2 in P.
    rewrite E1. change (Z.of_N (N_of_ascii "-")) with 45.
    rewrite (proj2 (parseInt_unsigned c t Hc)). now rewrite P.
Qed.

Lemma Z_toString_truthy (n : Z) : truthy (Z_toString n) = true.
Proof.
  pose proof (parseInt_Z_toString n) as H.
  destruct (Z_toString n); [discriminate|reflexivity].
Qed.

Lemma hex_encode_length (b : bytes) :
  length (hex_encode b) = (2 * length b)%nat.
Proof.
  induction b as [|x b IH]; [reflexivity|].
  cbn [hex_encode flat_map app length]. fold (hex_encode b). lia.
Qed.

(* ================================================================= *)
(** ** More on the guard *)

Section GuardMore.

Context {C : Crypto}.

Import ServiceAuthGuard Verifier.

(** X1. [safeCompare] never throws, and it answers [true] exactly when the
    two strings have the same length and decode from hex to the same
    bytes. *)
Theorem safeCompare_decides (a b : jsstring) (w : World) :
  (exists r, outcome (safeCompare a b) w = Ok r)
  /\ (outcome (safeCompare a b) w = Ok true
      <-> length a = length b /\ hex_decode a = hex_decode b).
Proof.
  rewrite safeCompare_outcome. split; [eexists; reflexivity|].
  unfold signatures_equal. split.
  - intros H. injection H as H.
    apply andb_true_iff in H. destruct H as [H Hb].
    apply andb_true_iff in H. destruct H as [Hl _].
    apply Nat.eqb_eq in Hl. apply bytes_eqb_eq in Hb. now split.
  - intros [Hl Hb]. rewrite Hl, Hb, !Nat.eqb_refl, bytes_eqb_refl. reflexivity.
Qed.

(** X2. Whatever [canActivate] returns is [true], and then the request is
    authentic for the guard: its service is allowed and has a non-empty
    key, its timestamp parses to at most 300 seconds before the current
    time, and its signature decodes from hex to the HMAC, under that key,
    of [METHOD:PATH:TIMESTAMP:BODY] as the guard reads them. *)
Theorem accepted_request_is_authentic (g : t) (request : Request) (w : World)
    (answer : bool) :
  outcome (canActivate g request) w = Ok answer ->
  answer = true
  /\ includes (allowedServices g) (serviceId_of request) = true
  /\ (exists requestTime,
        parseInt (timestamp_of request) = Some requestTime
        /\ clock w / 1000 - requestTime <= 300)
  /\ exists key,
       lookup (serviceId_of request) (apiKeys g) = Some key
       /\ key <> []
       /\ hex_decode (signature_of request)
          = hmac_sha256 (utf8_encode key)
              (utf8_encode
                 (signatureContent (method request) (path request)
                    (timestamp_of request) (received_body request)))
       /\ length (signature_of request)
          = (2 * length (hex_decode (signature_of request)))%nat.
Proof.
  intros H.
  assert (A : answer = true).
  { rewrite canActivate_verify in H.
    destruct (verify g (clock w / 1000) request); cbn in H; congruence. }
  subst answer. split; [reflexivity|].
  pose proof (proj1 (accepted_iff_all_pass g request w) H) as Hall.
  split; [exact (Hall KnownService)|]. split.
  - pose proof (Hall FreshTimestamp) as F. cbn [passes] in F.
    destruct (parseInt (timestamp_of request)) as [r|]; [|discriminate].
    exists r. split; [reflexivity|]. now apply Z.leb_le.
  - pose proof (Hall KeyPresent) as K. cbn [passes] in K.
    pose proof (Hall SignatureMatch) as S. cbn [passes] in S.
    unfold expected_signature in S.
    destruct (lookup (serviceId_of request) (apiKeys g)) as [key|];
      [|discriminate].
    cbn [as_string] in K, S. exists key. split; [reflexivity|].
    split; [destruct key; [discriminate|congruence]|].
    unfold signatures_equal in S.
    apply andb_true_iff in S. destruct S as [S Hb].
    apply andb_true_iff in S. destruct S as [Hl _].
    apply Nat.eqb_eq in Hl. apply bytes_eqb_eq in Hb.
    unfold createSignature in Hl, Hb. rewrite hex_decode_encode in Hb.
    rewrite hex_encode_length in Hl.
    split; [exact Hb|]. now rewrite Hb.
Qed.

Lemma includes_In (l : list jsstring) (x : jsstring) :
  includes l x = true <-> In x l.
Proof.
  unfold includes. rewrite existsb_exists. split.
  - intros (y & Hy & E). apply jsstring_eqb_eq in E. now subst.
  - intros H. exists x. split; [exact H|apply jsstring_eqb_refl].
Qed.

Lemma log_each_key_ok (keys : table) (services : list jsstring) (w : World) :
  outcome (log_each_key keys services) w = Ok tt.
Proof.
  revert w. induction services as [|s l IH]; intros w; [reflexivity|].
  cbn [log_each_key]. unfold outcome, bind, log in *. apply IH.
Qed.

(** Construction of the guard always succeeds, with the four services. *)
Lemma guard_constructed (cfg : ConfigService) (w : World) :
  outcome (constructor cfg) w
  = Ok {| configService := cfg;
          apiKeys :=
            [ (js "user-service", config_get cfg (js "USER_SERVICE_KEY") []);
              (js "api-gateway", config_get cfg (js "API_GATEWAY_KEY") []);
              (js "pet-service", config_get cfg (js "PET_SERVICE_KEY") []);
              (js "auth-service", config_get cfg (js "AUTH_SERVICE_KEY") []) ];
          allowedServices :=
            [js "user-service"; js "api-gateway"; js "pet-service"; js "auth-service"] |}.
Proof.
  unfold constructor.
  destruct (match lookup (js "NODE_ENV") cfg with
            | Some env => jsstring_eqb env (js "development")
            | None => false
            end).
  - unfold outcome, bind at 1. unfold bind at 1. unfold log at 1.
    set (w1 := Build_World _ _ _ _).
    set (keys := [(js "user-service", _); _; _; _]).
    pose proof (log_each_key_ok keys (ServiceAuthGuard.keys keys) w1) as E.
    unfold outcome in E.
    destruct (log_each_key keys (ServiceAuthGuard.keys keys) w1) as [w2 [[]|e]];
      cbn in E; [reflexivity|discriminate].
  - reflexivity.
Qed.

(** X3. Whatever the configuration, the guard that the constructor builds
    allows the four services [user-service], [api-gateway], [pet-service]
    and [auth-service] and no other: a request carrying the three headers
    under any other service id is rejected as an unknown service, before
    its timestamp or signature is looked at. *)
Theorem constructed_guard_rejects_unknown_service (cfg : ConfigService)
    (w0 : World) :
  exists g,
    outcome (constructor cfg) w0 = Ok g
    /\ allowedServices g
       = [js "user-service"; js "api-gateway"; js "pet-service"; js "auth-service"]
    /\ forall (request : Request) (w : World),
         passes g (clock w / 1000) request HeaderPresence = true ->
         ~ In (serviceId_of request)
             [js "user-service"; js "api-gateway"; js "pet-service"; js "auth-service"] ->
         outcome (canActivate g request) w
         = Throw (UnauthorizedException
                    (js "Unknown service: " ++ serviceId_of request)).
Proof.
  eexists. split; [apply guard_constructed|]. split; [reflexivity|].
  intros request w Hh Hn.
  apply (rejected_by_first_failure _ request w KnownService).
  - cbn [passes allowedServices].
    destruct (includes _ (serviceId_of request)) eqn:E; [|reflexivity].
    apply includes_In in E. contradiction.
  - intros c' Hc'. destruct c'; cbn [rank] in Hc'; try lia. exact Hh.
Qed.

(** X4. The guard keeps no record of the requests it has seen: a request
    accepted once is accepted again, unchanged, at any time at which its
    timestamp is at most 300 seconds old, and is rejected as expired at
    any later time. *)
Theorem replay_accepted_within_window (g : t) (request : Request)
    (w w' : World) (requestTime : Z) :
  outcome (canActivate g request) w = Ok true ->
  parseInt (timestamp_of request) = Some requestTime ->
  outcome (canActivate g request) w'
  = if clock w' / 1000 - requestTime <=? 300 then Ok true
    else Throw (UnauthorizedException (js "Request expired or invalid timestamp")).
Proof.
  intros Hacc Hparse.
  pose proof (proj1 (accepted_iff_all_pass g request w) Hacc) as Hall.
  rewrite (accepted_when_fresh g request w').
  - cbn [passes]. now rewrite Hparse.
  - exact (Hall HeaderPresence).
  - exact (Hall KnownService).
  - exact (Hall KeyPresent).
  - exact (Hall SignatureMatch).
Qed.

(** X6. A signature computed over other content does not pass: when the
    first four checks pass and the signature supplied is the hex of the
    HMAC of some content under the service key, the request is rejected
    with "Invalid signature" as soon as that HMAC differs from the HMAC of
    the content the guard reads from the request. *)
Theorem signature_over_other_content_rejected (g : t) (request : Request)
    (w : World) (signedContent : jsstring) :
  let p := passes g (clock w / 1000) request in
  let key := as_string (lookup (serviceId_of request) (apiKeys g)) in
  let content :=
    signatureContent (method request) (path request) (timestamp_of request)
      (received_body request) in
  p HeaderPresence = true -> p KnownService = true ->
  p FreshTimestamp = true -> p KeyPresent = true ->
  signature_of request = createSignature signedContent key ->
  hmac_sha256 (utf8_encode key) (utf8_encode signedContent)
  <> hmac_sha256 (utf8_encode key) (utf8_encode content) ->
  outcome (canActivate g request) w
  = Throw (UnauthorizedException (js "Invalid signature")).
Proof.
  intros p key content H1 H2 H3 H4 Hs Hd.
  apply (rejected_by_first_failure _ request w SignatureMatch).
  - cbn [passes]. rewrite Hs. unfold signatures_equal, expected_signature.
    fold key. unfold createSignature. rewrite !hex_decode_encode.
    rewrite bytes_eqb_neq by exact Hd. now rewrite andb_false_r.
  - intros c' Hc'. destruct c'; cbn [rank] in Hc'; try lia; assumption.
Qed.

End GuardMore.

(* ================================================================= *)
(** ** From the signer to the guard *)

Section EndToEnd.

Context {C : Crypto} {H : HmacLaws C}.

Import Verifier.


Lemma signRequest_run (client : ServiceAuthClient.t) (config : RequestConfig)
    (w : World) :
  let timestamp := Z_toString (clock w / 1000) in
  let content :=
    signed_method config ++ colon ++ signed_path config ++ colon
      ++ timestamp ++ colon ++ signed_body config in
  exists signed headers',
    outcome (ServiceAuthClient.signRequest client config) w = Ok signed
    /\ config_method signed = config_method config
    /\ config_url signed = config_url config
    /\ config_data signed = config_data config
    /\ config_headers signed = Some headers'
    /\ lookup (js "x-service-id") headers' = Some (js "user-service")
    /\ lookup (js "x-request-timestamp") headers' = Some timestamp
    /\ lookup (js "x-request-signature") headers'
       = Some (ServiceAuthClient.createSignature content
                 (ServiceAuthClient.serviceKey client)).
Proof.
  intros timestamp content.
  unfold outcome, ServiceAuthClient.signRequest, bind, Date_now, ret. cbn [snd].
  eexists. eexists. split; [reflexivity|]. cbn [config_method config_url config_data config_headers].
  do 4 (split; [reflexivity|]).
  rewrite lookup_assign_same, !lookup_assign_other, !lookup_assign_same
    by discriminate.
  rewrite lookup_assign_other, lookup_assign_same by discriminate.
  repeat split.
Qed.


End EndToEnd.

Lemma ChecksumCrypto_hmac : HmacLaws ChecksumCrypto.
Proof.
  split. intros key msg. cbn [hmac_sha256 ChecksumCrypto].
  now rewrite length_map, length_seq.
Qed.

(* ================================================================= *)
(** ** More on the field cipher *)

Lemma firstn_prefix {A} (n : nat) (a b : list A) :
  length a = n -> firstn n (a ++ b) = a.
Proof.
  intros <-. now rewrite firstn_app, Nat.sub_diag, firstn_all, app_nil_r.
Qed.

Lemma base64_encode_inj (a b : bytes) :
  base64_encode a = base64_encode b -> a = b.
Proof.
  intros E. rewrite <- (base64_decode_encode a), <- (base64_decode_encode b).
  now rewrite E.
Qed.

Lemma b64_char_range (n : Z) : 0 <= n < 64 -> 43 <= b64_char n <= 122.
Proof. intros H. unfold b64_char. split_cmp. Qed.

(** The characters of a base64 text are ASCII, four for every three
    bytes. *)
Lemma base64_encode_shape (b : bytes) :
  Forall (fun c => 0 <= c < 128) (base64_encode b)
  /\ Nat.divide 4 (length (base64_encode b)).
Proof.
  induction b as [|x|x y|x y z l [IH1 IH2]] using list_ind3.
  - split; [constructor|exists 0%nat; reflexivity].
  - pose proof (b2z_range x). cbn [base64_encode]. split.
    + repeat constructor; try lia;
        match goal with |- context [b64_char ?n] =>
          pose proof (b64_char_range n ltac:(arith)); lia end.
    + exists 1%nat. reflexivity.
  - pose proof (b2z_range x). pose proof (b2z_range y). cbn [base64_encode]. split.
    + repeat constructor; try lia;
        match goal with |- context [b64_char ?n] =>
          pose proof (b64_char_range n ltac:(arith)); lia end.
    + exists 1%nat. reflexivity.
  - pose proof (b2z_range x). pose proof (b2z_range y). pose proof (b2z_range z).
    cbn [base64_encode]. split.
    + repeat (constructor; [match goal with |- context [b64_char ?n] =>
          pose proof (b64_char_range n ltac:(arith)); lia end|]).
      exact IH1.
    + destruct IH2 as [k Hk]. exists (S k). cbn [length]. lia.
Qed.

Lemma ascii_well_formed (s : jsstring) :
  Forall (fun c => 0 <= c < 128) s -> well_formed s = true.
Proof.
  induction 1 as [|c s Hc _ IH]; [reflexivity|].
  cbn [well_formed]. rewrite IH.
  unfold is_high_surrogate, is_low_surrogate. split_cmp; reflexivity.
Qed.

Section CipherMore.

Context {C : Crypto}.

Import DatabaseEncryptionService.

(** The world after [n] random bytes were drawn. *)
Lemma encrypt_run (this : t) (text : jsstring) (w : World) :
  length (encryptionKey this) = 32%nat ->
  text <> [] ->
  let key := encryptionKey this in
  let iv := map (entropy w) (seq (drawn w) 16) in
  let c := gcm_crypt key iv (utf8_encode text) in
  encrypt this text w
  = ({| console := console w; clock := clock w; entropy := entropy w;
        drawn := drawn w + 16 |},
     Ok (base64_encode (iv ++ c ++ gcm_tag key iv c))).
Proof.
  intros Hkey Htext key iv c.
  unfold encrypt.
  rewrite (truthy_nonempty text Htext). cbn [negb].
  unfold try_catch, bind, randomBytes, lift, createCipheriv, algorithm.
  rewrite jsstring_eqb_refl. cbn [negb].
  rewrite Hkey. cbn [Nat.eqb negb].
  rewrite length_map, length_seq. cbn [ivLength Nat.eqb].
  unfold cipher_update, cipher_final, cipher_getAuthTag, ret.
  cbn [cipher_key cipher_iv cipher_text hex_encode flat_map app].
  now rewrite app_nil_r, hex_decode_encode.
Qed.

Lemma decrypt_returns (this : t) (encryptedText : jsstring) (w : World) :
  exists text, outcome (decrypt this encryptedText) w = Ok text.
Proof.
  unfold outcome, decrypt.
  destruct (truthy encryptedText); cbn [negb]; [|eexists; reflexivity].
  unfold try_catch.
  match goal with |- context [match ?m w with _ => _ end] =>
    destruct (m w) as [w' [text|e]] end.
  - eexists. reflexivity.
  - eexists. reflexivity.
Qed.

(** X7. [decrypt] never throws: for every key and every input it returns
    a string, the input itself when that is empty; every failure inside is
    caught. *)
Theorem decrypt_never_throws (this : t) (encryptedText : jsstring) (w : World) :
  (exists text, outcome (decrypt this encryptedText) w = Ok text)
  /\ (forall e, outcome (decrypt this encryptedText) w <> Throw e)
  /\ (encryptedText = [] -> decrypt this encryptedText w = (w, Ok [])).
Proof.
  destruct (decrypt_returns this encryptedText w) as [text E].
  split; [exists text; exact E|]. split.
  - intros e. rewrite E. discriminate.
  - intros ->. reflexivity.
Qed.

(** X8. The only exception [encrypt] throws is the error "Failed to
    encrypt data", whatever failed inside; with a key of 32 bytes it throws
    nothing, for any text; and an empty text is returned as it is, without
    a random byte drawn or a line written. *)
Theorem encrypt_failure_is_generic (this : t) (text : jsstring) (w : World) :
  (forall e, outcome (encrypt this text) w = Throw e ->
             e = JsError (js "Failed to encrypt data"))
  /\ (length (encryptionKey this) = 32%nat ->
      exists blob, outcome (encrypt this text) w = Ok blob)
  /\ (text = [] -> encrypt this text w = (w, Ok [])).
Proof.
  split; [|split].
  - intros e. unfold outcome, encrypt.
    destruct (truthy text); cbn [negb]; [|discriminate].
    unfold try_catch.
    match goal with |- context [match ?m w with _ => _ end] =>
      destruct (m w) as [w' [blob|e']] end.
    + discriminate.
    + unfold bind, log, throw. cbn [snd]. congruence.
  - intros Hkey. destruct text as [|c t]; [eexists; reflexivity|].
    unfold outcome. rewrite encrypt_run by (assumption || discriminate).
    eexists. reflexivity.
  - intros ->. reflexivity.
Qed.

(** X10. Each encryption draws its own 16 bytes for the IV and puts them
    at the head of the blob.  Two encryptions of the same text in a row
    therefore return the same blob exactly when the random source
    delivers the same 16 bytes twice. *)
Theorem successive_encryptions_differ_by_iv (this : t) (text : jsstring)
    (w : World) :
  length (encryptionKey this) = 32%nat ->
  text <> [] ->
  let iv1 := map (entropy w) (seq (drawn w) 16) in
  let iv2 := map (entropy w) (seq (drawn w + 16) 16) in
  exists blob1 blob2,
    outcome (b1 <- encrypt this text ;; b2 <- encrypt this text ;; ret (b1, b2)) w
    = Ok (blob1, blob2)
    /\ firstn 16 (base64_decode blob1) = iv1
    /\ firstn 16 (base64_decode blob2) = iv2
    /\ (blob1 = blob2 <-> iv1 = iv2).
Proof.
  intros Hkey Htext iv1 iv2.
  unfold outcome, bind.
  rewrite encrypt_run by assumption. rewrite encrypt_run by assumption.
  cbn [entropy drawn]. fold iv1 iv2.
  assert (L1 : length iv1 = 16%nat) by (subst iv1; now rewrite length_map, length_seq).
  assert (L2 : length iv2 = 16%nat) by (subst iv2; now rewrite length_map, length_seq).
  eexists. eexists. split; [reflexivity|].
  rewrite !base64_decode_encode.
  split; [|split].
  - now apply firstn_prefix.
  - now apply firstn_prefix.
  - split.
    + intros E. apply base64_encode_inj in E.
      apply (f_equal (firstn 16)) in E.
      now rewrite !firstn_prefix in E by assumption.
    + intros ->. reflexivity.
Qed.

(** X11. The stored form.  Under a key of 32 bytes the blob of a non-empty
    text is ASCII, a multiple of four characters long, and decodes from
    base64 to the 16 bytes of the IV, the ciphertext, and the 16 bytes of
    the tag of that IV and ciphertext. *)
Theorem blob_layout {L : CryptoLaws C} (this : t) (text : jsstring) (w : World) :
  length (encryptionKey this) = 32%nat ->
  text <> [] ->
  let key := encryptionKey this in
  exists blob iv c,
    outcome (encrypt this text) w = Ok blob
    /\ base64_decode blob = iv ++ c ++ gcm_tag key iv c
    /\ length iv = 16%nat
    /\ c = gcm_crypt key iv (utf8_encode text)
    /\ length (base64_decode blob) = (32 + length c)%nat
    /\ Forall (fun ch => 0 <= ch < 128) blob
    /\ Nat.divide 4 (length blob)
    /\ blob <> [].
Proof.
  intros Hkey Htext key.
  unfold outcome. rewrite encrypt_run by assumption. cbn [snd]. fold key.
  set (iv := map (entropy w) (seq (drawn w) 16)).
  set (c := gcm_crypt key iv (utf8_encode text)).
  assert (Li : length iv = 16%nat) by (subst iv; now rewrite length_map, length_seq).
  exists (base64_encode (iv ++ c ++ gcm_tag key iv c)), iv, c.
  split; [reflexivity|]. rewrite base64_decode_encode.
  split; [reflexivity|]. split; [exact Li|]. split; [reflexivity|].
  split; [rewrite !length_app, gcm_tag_length; lia|].
  split; [apply base64_encode_shape|]. split; [apply base64_encode_shape|].
  intros E.
  assert (T : truthy (base64_encode (iv ++ c ++ gcm_tag key iv c)) = true)
    by (apply base64_encode_truthy; destruct iv; discriminate).
  rewrite E in T. discriminate.
Qed.

(** X12. What is too short to be a blob fails to decrypt: an input that is
    not empty but decodes from base64 to fewer than four bytes gives the
    placeholder "[Decryption failed]", under any key. *)
Theorem decrypt_short_input_fails (this : t) (encryptedText : jsstring)
    (w : World) :
  encryptedText <> [] ->
  (length (base64_decode encryptedText) < 4)%nat ->
  outcome (decrypt this encryptedText) w = Ok (js "[Decryption failed]").
Proof.
  intros Hne Hshort.
  unfold outcome, decrypt.
  rewrite (truthy_nonempty _ Hne). cbn [negb].
  unfold try_catch, bind, lift, createDecipheriv, algorithm.
  rewrite jsstring_eqb_refl. cbn [negb].
  destruct (length (encryptionKey this) =? 32)%nat; cbn [negb]; [|reflexivity].
  destruct (base64_decode encryptedText) as [|a [|b [|c [|d l]]]];
    [reflexivity| | | |cbn [length] in Hshort; lia];
    reflexivity.
Qed.

End CipherMore.

(* ================================================================= *)
(** ** The phone number of a user *)

Section EntityFacts.

Context {C : Crypto}.

Import DatabaseEncryptionService User.

(** [decrypt] writes at most its own error line. *)
Lemma decrypt_written (this : DatabaseEncryptionService.t)
    (encryptedText : jsstring) (w : World) :
  written (decrypt this encryptedText) w = []
  \/ exists m,
       written (decrypt this encryptedText) w
       = [ConsoleError [js "Decryption error:"; m]].
Proof.
  unfold written, decrypt.
  destruct (truthy encryptedText); cbn [negb];
    [|left; unfold ret; cbn [fst]; apply skipn_all].
  unfold try_catch, bind, lift.
  destruct (createDecipheriv _ _ _) as [d|e].
  2:{ right. eexists. unfold log, ret. cbn [fst console].
      now rewrite skipn_app, Nat.sub_diag, skipn_all. }
  destruct (decipher_setAuthTag d _) as [d'|e].
  2:{ right. eexists. unfold log, ret. cbn [fst console].
      now rewrite skipn_app, Nat.sub_diag, skipn_all. }
  unfold decipher_update.
  destruct (decipher_final _) as [r|e].
  - left. unfold ret. cbn [fst]. apply skipn_all.
  - right. eexists. unfold log, ret. cbn [fst console].
    now rewrite skipn_app, Nat.sub_diag, skipn_all.
Qed.

Lemma decryptPhoneNumber_run (svc : DatabaseEncryptionService.t) (u : User.t)
    (w : World) (b : jsstring) :
  isPhoneEncrypted u = true ->
  phoneNumber u = Some b ->
  b <> [] ->
  exists text,
    outcome (decrypt svc b) w = Ok text
    /\ decryptPhoneNumber svc u w
       = (fst (decrypt svc b w),
          Ok {| phoneNumber := Some text;
                isPhoneEncrypted := true;
                tempDecryptedPhone := tempDecryptedPhone u |}).
Proof.
  intros Hf Hp Hb.
  destruct (decrypt_returns svc b w) as [text E].
  exists text. split; [exact E|].
  unfold decryptPhoneNumber. rewrite Hf, Hp. cbn [falsy as_string].
  rewrite (truthy_nonempty b Hb). cbn [negb andb].
  unfold try_catch, bind. unfold outcome in E.
  destruct (decrypt svc b w) as [w' [t|e]]; cbn in E; [|discriminate].
  injection E as ->. reflexivity.
Qed.

Lemma encryptPhoneNumber_run (svc : DatabaseEncryptionService.t) (u : User.t)
    (w : World) (p : jsstring) :
  length (encryptionKey svc) = 32%nat ->
  phoneNumber u = Some p ->
  p <> [] ->
  isPhoneEncrypted u = false \/ differs (Some p) (tempDecryptedPhone u) = true ->
  exists blob,
    outcome (encrypt svc p) w = Ok blob
    /\ encryptPhoneNumber svc u w
       = ({| console := console w; clock := clock w; entropy := entropy w;
             drawn := drawn w + 16 |},
          Ok {| phoneNumber := Some blob;
                isPhoneEncrypted := true;
                tempDecryptedPhone := tempDecryptedPhone u |}).
Proof.
  intros Hkey Hp Hne Hcond.
  pose proof (encrypt_run svc p w Hkey Hne) as R. cbv zeta in R.
  eexists. split; [unfold outcome; rewrite R; reflexivity|].
  unfold encryptPhoneNumber. rewrite Hp. cbn [falsy as_string].
  rewrite (truthy_nonempty p Hne). cbn [negb andb].
  replace (negb (isPhoneEncrypted u) || differs (Some p) (tempDecryptedPhone u))
    with true
    by (destruct Hcond as [-> | ->]; [reflexivity|now rewrite orb_true_r]).
  unfold try_catch, bind. rewrite R. reflexivity.
Qed.

(** X13. With a key of 32 bytes, a phone number encrypted by
    [encryptPhoneNumber] and then decrypted by [decryptPhoneNumber] is the
    phone number again; the entity stays marked as encrypted. *)
Theorem phone_number_round_trip {L : CryptoLaws C}
    (svc : DatabaseEncryptionService.t) (u : User.t) (w : World) (p : jsstring) :
  length (encryptionKey svc) = 32%nat ->
  phoneNumber u = Some p ->
  p <> [] ->
  well_formed p = true ->
  isPhoneEncrypted u = false ->
  outcome (u1 <- encryptPhoneNumber svc u ;; decryptPhoneNumber svc u1) w
  = Ok {| phoneNumber := Some p;
          isPhoneEncrypted := true;
          tempDecryptedPhone := tempDecryptedPhone u |}.
Proof.
  intros Hkey Hp Hne Hwf Hflag.
  destruct (encryptPhoneNumber_run svc u w p Hkey Hp Hne (or_introl Hflag))
    as (blob & E & R).
  destruct (decrypt_encrypt_roundtrip svc p w Hkey Hne Hwf) as (blob' & E' & D).
  rewrite E in E'. injection E' as <-.
  unfold outcome, bind. rewrite R.
  set (w1 := Build_World _ _ _ _).
  assert (Hb : blob <> []).
  { intros ->. specialize (D w1). unfold outcome, decrypt in D. cbn in D.
    congruence. }
  destruct (decryptPhoneNumber_run svc
              {| phoneNumber := Some blob; isPhoneEncrypted := true;
                 tempDecryptedPhone := tempDecryptedPhone u |} w1 blob
              eq_refl eq_refl Hb) as (text & Et & Rd).
  rewrite D in Et. injection Et as <-.
  rewrite Rd. reflexivity.
Qed.

(** X14. With a key that does not have 32 bytes (the development fallback
    is one), [encryptPhoneNumber] loses the phone number: every non-empty
    number that is due for encryption is replaced by [null] and the entity
    is marked as not encrypted. *)
Theorem phone_number_lost_with_unusable_key
    (svc : DatabaseEncryptionService.t) (u : User.t) (w : World) (p : jsstring) :
  length (encryptionKey svc) <> 32%nat ->
  phoneNumber u = Some p ->
  p <> [] ->
  isPhoneEncrypted u = false \/ differs (Some p) (tempDecryptedPhone u) = true ->
  outcome (encryptPhoneNumber svc u) w
  = Ok {| phoneNumber := None;
          isPhoneEncrypted := false;
          tempDecryptedPhone := tempDecryptedPhone u |}.
Proof.
  intros Hkey Hp Hne Hcond.
  destruct (encrypt_bad_key svc p w Hkey Hne) as [E _].
  unfold outcome, encryptPhoneNumber. rewrite Hp. cbn [falsy as_string].
  rewrite (truthy_nonempty p Hne). cbn [negb andb].
  replace (negb (isPhoneEncrypted u) || differs (Some p) (tempDecryptedPhone u))
    with true
    by (destruct Hcond as [-> | ->]; [reflexivity|now rewrite orb_true_r]).
  unfold try_catch, bind at 1. unfold outcome in E.
  destruct (encrypt svc p w) as [w' [blob|e]]; cbn in E; [discriminate|].
  reflexivity.
Qed.

(** X15. The [catch] of [decryptPhoneNumber] never runs, because
    [decrypt] never throws: the helper always returns, never writes
    "Failed to decrypt phone number", and stores whatever [decrypt]
    returned, so data that fails to decrypt leaves the placeholder of
    [decrypt] in the phone number. *)
Theorem decryptPhoneNumber_stores_decrypt_result
    (svc : DatabaseEncryptionService.t) (u : User.t) (w : World) :
  exists u',
    outcome (decryptPhoneNumber svc u) w = Ok u'
    /\ (forall m,
          ~ In (ConsoleError [js "Failed to decrypt phone number"; m])
               (written (decryptPhoneNumber svc u) w))
    /\ (forall b,
          isPhoneEncrypted u = true -> phoneNumber u = Some b -> b <> [] ->
          exists text,
            outcome (decrypt svc b) w = Ok text
            /\ phoneNumber u' = Some text)
    /\ (isPhoneEncrypted u = false \/ falsy (phoneNumber u) = true -> u' = u).
Proof.
  destruct (isPhoneEncrypted u) eqn:Hf.
  - destruct (phoneNumber u) as [b|] eqn:Hp.
    + destruct b as [|c t].
      * exists u. unfold outcome, written, decryptPhoneNumber.
        rewrite Hf, Hp. cbn. rewrite skipn_all.
        repeat split; auto. intros b _ [= <-] Hb. congruence.
      * destruct (decryptPhoneNumber_run svc u w (c :: t) Hf Hp ltac:(discriminate))
          as (text & E & R).
        eexists. unfold outcome, written. rewrite R. cbn [fst snd].
        split; [reflexivity|]. split; [|split].
        -- intros m Hin.
           destruct (decrypt_written svc (c :: t) w) as [W|[m' W]];
             unfold written in W; rewrite W in Hin; cbn in Hin.
           ++ exact Hin.
           ++ destruct Hin as [Hin|[]]. discriminate.
        -- intros b _ [= <-] _. exists text. split; [exact E|reflexivity].
        -- intros [Hc|Hc]; discriminate.
    + exists u. unfold outcome, written, decryptPhoneNumber.
      rewrite Hf, Hp. cbn. rewrite skipn_all.
      repeat split; auto. intros b _ [=].
  - exists u. unfold outcome, written, decryptPhoneNumber.
    rewrite Hf. cbn. rewrite skipn_all.
    repeat split; auto. intros b [=].
Qed.

(** X16. Encrypting twice.  On an entity that was not loaded from the
    database, a second [encryptPhoneNumber] encrypts the ciphertext of the
    first, so that one [decryptPhoneNumber] gives back that ciphertext and
    only a second one the phone number; after [loadDecryptedPhone] the
    second [encryptPhoneNumber] changes nothing. *)
Theorem phone_number_encrypted_twice {L : CryptoLaws C}
    (svc : DatabaseEncryptionService.t) (u : User.t) (w : World) (p : jsstring) :
  length (encryptionKey svc) = 32%nat ->
  phoneNumber u = Some p ->
  p <> [] ->
  well_formed p = true ->
  isPhoneEncrypted u = false ->
  tempDecryptedPhone u = None ->
  exists blob u1 w1,
    encryptPhoneNumber svc u w = (w1, Ok u1)
    /\ phoneNumber u1 = Some blob
    /\ outcome (encrypt svc p) w = Ok blob
    /\ outcome (u2 <- encryptPhoneNumber svc u1 ;; decryptPhoneNumber svc u2) w1
       = Ok u1
    /\ outcome (u2 <- encryptPhoneNumber svc u1 ;;
                u3 <- decryptPhoneNumber svc u2 ;;
                decryptPhoneNumber svc u3) w1
       = Ok {| phoneNumber := Some p;
               isPhoneEncrypted := true;
               tempDecryptedPhone := None |}
    /\ encryptPhoneNumber svc (loadDecryptedPhone u1) w1
       = (w1, Ok (loadDecryptedPhone u1)).
Proof.
  intros Hkey Hp Hne Hwf Hflag Htemp.
  destruct (encryptPhoneNumber_run svc u w p Hkey Hp Hne (or_introl Hflag))
    as (blob & E & R).
  rewrite Htemp in R.
  set (w1 := Build_World _ _ _ _) in R.
  destruct (decrypt_encrypt_roundtrip svc p w Hkey Hne Hwf) as (blob' & E' & D).
  rewrite E in E'. injection E' as <-.
  assert (Hb : blob <> []).
  { intros B. specialize (D w1). rewrite B in D.
    unfold outcome, decrypt in D. cbn in D. congruence. }
  assert (Hwb : well_formed blob = true).
  { destruct (encrypt_ok svc p w Hkey Hne) as [E0 _]. cbv zeta in E0.
    rewrite E in E0.
    apply (f_equal (fun r => match r with
                             | Ok b => well_formed b
                             | Throw _ => true
                             end)) in E0.
    cbv beta iota in E0. rewrite E0.
    apply ascii_well_formed, base64_encode_shape. }
  exists blob, (User.Build_t (Some blob) true None), w1.
  split; [exact R|]. split; [reflexivity|].
  split; [exact E|].
  (* the second encryption, of the ciphertext *)
  destruct (encryptPhoneNumber_run svc (User.Build_t (Some blob) true None)
              w1 blob Hkey eq_refl Hb (or_intror eq_refl)) as (blob2 & E2 & R2).
  set (w2 := Build_World _ _ _ _) in R2.
  destruct (decrypt_encrypt_roundtrip svc blob w1 Hkey Hb Hwb) as (blob2' & E2' & D2).
  rewrite E2 in E2'. injection E2' as <-.
  assert (Hb2 : blob2 <> []).
  { intros B. specialize (D2 w2). rewrite B in D2.
    unfold outcome, decrypt in D2. cbn in D2. congruence. }
  destruct (decryptPhoneNumber_run svc
              (User.Build_t (Some blob2) true None) w2 blob2
              eq_refl eq_refl Hb2) as (text & Et & Rd).
  rewrite D2 in Et. injection Et as <-.
  cbn [tempDecryptedPhone] in R2, Rd.
  split; [|split].
  - unfold outcome, bind. rewrite R2, Rd. reflexivity.
  - unfold outcome, bind. rewrite R2, Rd.
    set (w3 := fst (decrypt svc blob2 w2)).
    destruct (decryptPhoneNumber_run svc
                (User.Build_t (Some blob) true None) w3 blob
                eq_refl eq_refl Hb) as (text & Et & Rd3).
    rewrite D in Et. injection Et as <-.
    cbn [tempDecryptedPhone] in Rd3. rewrite Rd3. reflexivity.
  - unfold encryptPhoneNumber, loadDecryptedPhone.
    cbn [phoneNumber isPhoneEncrypted tempDecryptedPhone falsy differs negb].
    rewrite jsstring_eqb_refl. cbn [negb orb]. now rewrite andb_false_r.
Qed.

End EntityFacts.

(* ================================================================= *)
(** ** A signer and a guard without a key *)

Section Unkeyed.

Context {C : Crypto} {H : HmacLaws C}.

Import Verifier.

(** What a relayed request shows of the signed configuration. *)
Lemma relayed_headers (client : ServiceAuthClient.t) (config signed : RequestConfig)
    (request : Request) (ws : World) :
  outcome (ServiceAuthClient.signRequest client config) ws = Ok signed ->
  relays signed request ->
  serviceId_of request = js "user-service"
  /\ timestamp_of request = Z_toString (clock ws / 1000)
  /\ exists content,
       signature_of request
       = ServiceAuthClient.createSignature content
           (ServiceAuthClient.serviceKey client).
Proof.
  intros Hsigned (Hh & _ & _).
  destruct (signRequest_run client config ws)
    as (signed' & headers' & E & _ & _ & _ & Eh & L1 & L2 & L3).
  cbv zeta in L3. rewrite Hsigned in E. injection E as <-.
  rewrite Eh in Hh.
  unfold serviceId_of, timestamp_of, signature_of, header.
  rewrite !Hh by (cbn; auto). rewrite L1, L2, L3.
  split; [reflexivity|]. split; [reflexivity|]. eexists. reflexivity.
Qed.

(** X17. The warning of the signer is true.  When [USER_SERVICE_KEY] is
    not configured, the signer still signs, with the empty key, and the
    guard built from the same configuration rejects what it signed, fresh
    and unaltered, for invalid service credentials. *)
Theorem unkeyed_request_rejected (cfg : ConfigService) (config signed : RequestConfig)
    (client : ServiceAuthClient.t) (guard : ServiceAuthGuard.t)
    (request : Request) (w0 w1 ws wg : World) :
  truthy (config_get cfg (js "USER_SERVICE_KEY") []) = false ->
  outcome (ServiceAuthClient.constructor cfg) w0 = Ok client ->
  outcome (ServiceAuthGuard.constructor cfg) w1 = Ok guard ->
  outcome (ServiceAuthClient.signRequest client config) ws = Ok signed ->
  relays signed request ->
  clock wg / 1000 - clock ws / 1000 <= 300 ->
  outcome (ServiceAuthGuard.canActivate guard request) wg
  = Throw (UnauthorizedException (js "Invalid service credentials")).
Proof.
  intros Hkey Hclient Hguard Hsigned Hrelay Hclock.
  rewrite guard_constructed in Hguard. injection Hguard as <-.
  destruct (relayed_headers client config signed request ws Hsigned Hrelay)
    as (S1 & S2 & content & S3).
  apply (rejected_by_first_failure _ request wg KeyPresent).
  - cbn [passes]. rewrite S1. cbn [ServiceAuthGuard.apiKeys]. exact Hkey.
  - intros c' Hc'. destruct c'; cbn [rank] in Hc'; try lia; cbn [passes].
    + rewrite S1, S2, S3, Z_toString_truthy. cbn [truthy andb].
      unfold ServiceAuthClient.createSignature.
      pose proof (hex_encode_length
                    (hmac_sha256 (utf8_encode (ServiceAuthClient.serviceKey client))
                       (utf8_encode content))) as Hl.
      rewrite hmac_sha256_length in Hl.
      destruct (hex_encode _); [discriminate|reflexivity].
    + rewrite S1. reflexivity.
    + rewrite S2, parseInt_Z_toString. now apply Z.leb_le.
Qed.

End Unkeyed.

(* ================================================================= *)
(** ** The further theorems on concrete inputs *)

Lemma accepted_request_is_authentic_witness :
  let request :=
    Sample.signed_request (C := ChecksumCrypto) (js "user-service") (js "1700000000") in
  outcome (ServiceAuthGuard.canActivate (C := ChecksumCrypto) Sample.guard request)
    Sample.world = Ok true
  /\ exists key,
       lookup (Verifier.serviceId_of request) (ServiceAuthGuard.apiKeys Sample.guard)
       = Some key
       /\ key <> []
       /\ hex_decode (Verifier.signature_of request)
          = hmac_sha256 (Crypto := ChecksumCrypto) (utf8_encode key)
              (utf8_encode (js "GET:/users/1:1700000000:")).
Proof.
  cbv zeta. split; [vm_compute; reflexivity|].
  destruct (accepted_request_is_authentic (C := ChecksumCrypto) Sample.guard
              (Sample.signed_request (C := ChecksumCrypto)
                 (js "user-service") (js "1700000000"))
              Sample.world true)
    as (_ & _ & _ & key & Hk & Hne & Hs & _); [vm_compute; reflexivity|].
  exists key. split; [exact Hk|]. split; [exact Hne|]. exact Hs.
Defined.

Lemma constructed_guard_rejects_unknown_service_witness :
  let request := Sample.request (js "billing-service") (js "1700000000") (js "00ff") in
  exists g,
    outcome (ServiceAuthGuard.constructor Sample.service_keys) Sample.world = Ok g
    /\ outcome (ServiceAuthGuard.canActivate (C := ChecksumCrypto) g request)
         Sample.world
       = Throw (UnauthorizedException (js "Unknown service: billing-service")).
Proof.
  cbv zeta.
  destruct (constructed_guard_rejects_unknown_service (C := ChecksumCrypto)
              Sample.service_keys Sample.world) as (g & Hg & _ & Hr).
  exists g. split; [exact Hg|].
  refine (Hr (Sample.request (js "billing-service") (js "1700000000") (js "00ff"))
            Sample.world _ _).
  - vm_compute; reflexivity.
  - cbn. intros [E|[E|[E|[E|[]]]]]; discriminate.
Defined.

Lemma replay_accepted_within_window_witness :
  let request :=
    Sample.signed_request (C := ChecksumCrypto) (js "user-service") (js "1700000000") in
  outcome (ServiceAuthGuard.canActivate (C := ChecksumCrypto) Sample.guard request)
    Scenario.signer_world = Ok true
  /\ parseInt (Verifier.timestamp_of request) = Some 1700000000
  /\ outcome (ServiceAuthGuard.canActivate (C := ChecksumCrypto) Sample.guard request)
       Sample.world = Ok true.
Proof.
  cbv zeta. split; [vm_compute; reflexivity|]. split; [vm_compute; reflexivity|].
  rewrite (replay_accepted_within_window (C := ChecksumCrypto) Sample.guard _
             Scenario.signer_world Sample.world 1700000000);
    vm_compute; reflexivity.
Defined.


(** The same signed request, received with the body [{}]: the guard signs
    [GET:/users/1:1700000000:{}] and rejects it. *)
Lemma signature_over_other_content_rejected_witness :
  let request := Scenario.received (C := ChecksumCrypto) Scenario.empty_object in
  let p := Verifier.passes (C := ChecksumCrypto) Sample.guard
             (clock Sample.world / 1000) request in
  p Verifier.HeaderPresence = true /\ p Verifier.KnownService = true
  /\ p Verifier.FreshTimestamp = true /\ p Verifier.KeyPresent = true
  /\ Verifier.signature_of request
     = ServiceAuthGuard.createSignature (C := ChecksumCrypto)
         (js "GET:/users/1:1700000000:") (js "test_user_service_key")
  /\ hmac_sha256 (Crypto := ChecksumCrypto) (utf8_encode (js "test_user_service_key"))
       (utf8_encode (js "GET:/users/1:1700000000:"))
     <> hmac_sha256 (Crypto := ChecksumCrypto) (utf8_encode (js "test_user_service_key"))
          (utf8_encode (js "GET:/users/1:1700000000:{}"))
  /\ outcome (ServiceAuthGuard.canActivate (C := ChecksumCrypto) Sample.guard request)
       Sample.world
     = Throw (UnauthorizedException (js "Invalid signature")).
Proof.
  cbv zeta.
  split; [vm_compute; reflexivity|]. split; [vm_compute; reflexivity|].
  split; [vm_compute; reflexivity|]. split; [vm_compute; reflexivity|].
  split; [vm_compute; reflexivity|]. split; [vm_compute; discriminate|].
  apply (signature_over_other_content_rejected (C := ChecksumCrypto) Sample.guard
           (Scenario.received (C := ChecksumCrypto) Scenario.empty_object)
           Sample.world (js "GET:/users/1:1700000000:"));
    vm_compute; (reflexivity || discriminate).
Defined.

Lemma roundtrip_with_ascii_key_witness :
  (32 <= length (config_get Sample.encryption_config (js "DB_ENCRYPTION_KEY") []))%nat
  /\ js "+1234567890" <> []
  /\ well_formed (js "+1234567890") = true
  /\ exists this blob,
       outcome (DatabaseEncryptionService.constructor Sample.encryption_config)
         Sample.world = Ok this
       /\ outcome (DatabaseEncryptionService.encrypt (C := ChecksumCrypto) this
                     (js "+1234567890")) Sample.world = Ok blob
       /\ outcome (DatabaseEncryptionService.decrypt (C := ChecksumCrypto) this blob)
            Sample.world = Ok (js "+1234567890").
Proof.
  split; [vm_compute; lia|]. split; [discriminate|]. split; [reflexivity|].
  destruct (roundtrip_with_ascii_key (C := ChecksumCrypto) (L := ChecksumCrypto_laws)
              Sample.encryption_config (js "+1234567890") Sample.world Sample.world)
    as (this & blob & E1 & E2 & D).
  - vm_compute; lia.
  - apply Forall_forall. intros c Hc. cbn in Hc.
    repeat (destruct Hc as [<-|Hc]; [lia|]). contradiction.
  - discriminate.
  - reflexivity.
  - exists this, blob. split; [exact E1|]. split; [exact E2|]. apply D.
Defined.

Lemma successive_encryptions_differ_by_iv_witness :
  length (DatabaseEncryptionService.encryptionKey Sample.cipher) = 32%nat
  /\ js "+1234567890" <> []
  /\ exists blob1 blob2,
       outcome (bind (DatabaseEncryptionService.encrypt (C := ChecksumCrypto)
                        Sample.cipher (js "+1234567890"))
                  (fun b1 =>
                     bind (DatabaseEncryptionService.encrypt (C := ChecksumCrypto)
                             Sample.cipher (js "+1234567890"))
                       (fun b2 => ret (b1, b2))))
         Scenario.counting_world = Ok (blob1, blob2)
       /\ blob1 <> blob2.
Proof.
  split; [reflexivity|]. split; [discriminate|].
  destruct (successive_encryptions_differ_by_iv (C := ChecksumCrypto) Sample.cipher
              (js "+1234567890") Scenario.counting_world)
    as (blob1 & blob2 & E & _ & _ & Hiff); [reflexivity|discriminate|].
  exists blob1, blob2. split; [exact E|].
  intros B. apply Hiff in B. vm_compute in B. discriminate.
Defined.

Lemma blob_layout_witness :
  length (DatabaseEncryptionService.encryptionKey Sample.cipher) = 32%nat
  /\ js "+1234567890" <> []
  /\ exists blob,
       outcome (DatabaseEncryptionService.encrypt (C := ChecksumCrypto) Sample.cipher
                  (js "+1234567890")) Sample.world = Ok blob
       /\ (32 <= length (base64_decode blob))%nat
       /\ Nat.divide 4 (length blob).
Proof.
  split; [reflexivity|]. split; [discriminate|].
  destruct (blob_layout (C := ChecksumCrypto) (L := ChecksumCrypto_laws)
              Sample.cipher (js "+1234567890") Sample.world)
    as (blob & iv & c & E & _ & _ & _ & Hl & _ & Hd & _);
    [reflexivity|discriminate|].
  exists blob. split; [exact E|]. split; [lia|exact Hd].
Defined.

Lemma decrypt_short_input_fails_witness :
  js "n/a" <> []
  /\ (length (base64_decode (js "n/a")) < 4)%nat
  /\ outcome (DatabaseEncryptionService.decrypt (C := ChecksumCrypto) Sample.cipher
                (js "n/a")) Sample.world = Ok (js "[Decryption failed]").
Proof.
  split; [discriminate|]. split; [vm_compute; lia|].
  apply (decrypt_short_input_fails (C := ChecksumCrypto) Sample.cipher (js "n/a")
           Sample.world); [discriminate|vm_compute; lia].
Defined.

Lemma phone_number_round_trip_witness :
  length (DatabaseEncryptionService.encryptionKey Sample.cipher) = 32%nat
  /\ User.phoneNumber Scenario.new_user = Some (js "+1234567890")
  /\ well_formed (js "+1234567890") = true
  /\ User.isPhoneEncrypted Scenario.new_user = false
  /\ outcome (bind (User.encryptPhoneNumber (C := ChecksumCrypto) Sample.cipher
                      Scenario.new_user)
                (fun u1 => User.decryptPhoneNumber (C := ChecksumCrypto)
                             Sample.cipher u1))
       Sample.world
     = Ok {| User.phoneNumber := Some (js "+1234567890");
             User.isPhoneEncrypted := true;
             User.tempDecryptedPhone := None |}.
Proof.
  split; [reflexivity|]. split; [reflexivity|]. split; [reflexivity|].
  split; [reflexivity|].
  apply (phone_number_round_trip (C := ChecksumCrypto) (L := ChecksumCrypto_laws)
           Sample.cipher Scenario.new_user Sample.world (js "+1234567890"));
    (reflexivity || discriminate).
Defined.

Lemma phone_number_lost_with_unusable_key_witness :
  length (DatabaseEncryptionService.encryptionKey Scenario.fallback_cipher) <> 32%nat
  /\ User.phoneNumber Scenario.new_user = Some (js "+1234567890")
  /\ User.isPhoneEncrypted Scenario.new_user = false
  /\ outcome (User.encryptPhoneNumber (C := ChecksumCrypto) Scenario.fallback_cipher
                Scenario.new_user) Sample.world
     = Ok {| User.phoneNumber := None;
             User.isPhoneEncrypted := false;
             User.tempDecryptedPhone := None |}.
Proof.
  split; [vm_compute; lia|]. split; [reflexivity|]. split; [reflexivity|].
  apply (phone_number_lost_with_unusable_key (C := ChecksumCrypto)
           Scenario.fallback_cipher Scenario.new_user Sample.world (js "+1234567890"));
    [vm_compute; lia|reflexivity|discriminate|left; reflexivity].
Defined.

Lemma phone_number_encrypted_twice_witness :
  length (DatabaseEncryptionService.encryptionKey Sample.cipher) = 32%nat
  /\ User.phoneNumber Scenario.new_user = Some (js "+1234567890")
  /\ User.isPhoneEncrypted Scenario.new_user = false
  /\ User.tempDecryptedPhone Scenario.new_user = None
  /\ exists blob u1 w1,
       User.encryptPhoneNumber (C := ChecksumCrypto) Sample.cipher Scenario.new_user
         Sample.world = (w1, Ok u1)
       /\ User.phoneNumber u1 = Some blob
       /\ outcome (bind (User.encryptPhoneNumber (C := ChecksumCrypto) Sample.cipher u1)
                     (fun u2 => User.decryptPhoneNumber (C := ChecksumCrypto)
                                  Sample.cipher u2)) w1
          = Ok u1.
Proof.
  split; [reflexivity|]. split; [reflexivity|]. split; [reflexivity|].
  split; [reflexivity|].
  destruct (phone_number_encrypted_twice (C := ChecksumCrypto)
              (L := ChecksumCrypto_laws) Sample.cipher Scenario.new_user
              Sample.world (js "+1234567890"))
    as (blob & u1 & w1 & R & Hp & _ & H2 & _);
    try reflexivity; try discriminate.
  exists blob, u1, w1. split; [exact R|]. split; [exact Hp|exact H2].
Defined.

Lemma unkeyed_request_rejected_witness :
  let signed :=
    match outcome (ServiceAuthClient.signRequest (C := ChecksumCrypto)
                     {| ServiceAuthClient.serviceKey := [] |} Sample.unsigned_config)
            Scenario.signer_world with
    | Ok config => config
    | Throw _ => Sample.unsigned_config
    end in
  let request :=
    {| headers := match config_headers signed with Some h => h | None => [] end;
       method := js "GET"; path := js "/users/1"; body := js_undefined |} in
  truthy (config_get [] (js "USER_SERVICE_KEY") []) = false
  /\ relays signed request
  /\ exists guard,
       outcome (ServiceAuthGuard.constructor []) Sample.world = Ok guard
       /\ outcome (ServiceAuthGuard.canActivate (C := ChecksumCrypto) guard request)
            Sample.world
          = Throw (UnauthorizedException (js "Invalid service credentials")).
Proof.
  cbv zeta.
  split; [reflexivity|].
  match goal with |- relays ?s ?r /\ _ =>
    assert (R : relays s r)
      by (split; [|split]; [intros name _; reflexivity| |]; vm_compute; reflexivity)
  end.
  split; [exact R|].
  eexists. split; [reflexivity|].
  eapply (unkeyed_request_rejected (C := ChecksumCrypto) (H := ChecksumCrypto_hmac)
            [] Sample.unsigned_config _ {| ServiceAuthClient.serviceKey := [] |}
            _ _ Sample.world Sample.world Scenario.signer_world Sample.world).
  - reflexivity.
  - reflexivity.
  - reflexivity.
  - vm_compute; reflexivity.
  - exact R.
  - vm_compute; discriminate.
Defined.
